(** * Screenshot thumbnails (filmstrip) audit

    A shallow embedding of [lighthouse-core/audits/screenshot-thumbnails.js]:
    the nearest-neighbour scaler [scaleImageToThumbnail], the bucket sampler
    and result assembly of [_audit], and the error classification of [audit].

    JavaScript numbers are modelled by [number]: exact rationals extended with
    [NaN] and the two infinities.  Rounding of IEEE doubles and the sign of
    zero are not modelled; every other case distinction the source makes on
    numbers (truthiness, [Number.isFinite], comparisons with [NaN],
    [Math.max] of an empty list) is.

    The collaborators of the audit are inputs of the model: what
    [Speedline.request] settles to is a field of the artifacts, a frame
    carries its timestamp, its flag and its parsed image, and the JPEG
    encoder is the method of the class [Jpeg].  Exceptions are values of
    [outcome]; the two collections [_audit] mutates are threaded through the
    loop as a state, together with a log of the scaler and encoder calls. *)

From Stdlib Require Import ZArith QArith Qround Lqa Lia.
From stdpp Require Import base option list sorting gmap strings.

Local Open Scope Z_scope.

(** ** JavaScript numbers *)

Module JS.

Inductive number : Type :=
| NaN
| PInf
| NInf
| Fin (q : Q).

Definition of_Z (z : Z) : number := Fin (inject_Z z).

Definition is_zero (q : Q) : bool := Qeq_bool q 0%Q.

(** Unary minus. *)
Definition neg (a : number) : number :=
  match a with
  | NaN => NaN
  | PInf => NInf
  | NInf => PInf
  | Fin q => Fin (- q)%Q
  end.

(** [a + b] *)
Definition add (a b : number) : number :=
  match a, b with
  | NaN, _ | _, NaN => NaN
  | PInf, NInf | NInf, PInf => NaN
  | PInf, _ | _, PInf => PInf
  | NInf, _ | _, NInf => NInf
  | Fin x, Fin y => Fin (x + y)%Q
  end.

(** [a - b] *)
Definition sub (a b : number) : number := add a (neg b).

(** Sign of a number that is not [NaN]: [Lt] negative, [Eq] zero, [Gt] positive. *)
Definition sign (a : number) : comparison :=
  match a with
  | NaN => Eq
  | PInf => Gt
  | NInf => Lt
  | Fin q => (q ?= 0)%Q
  end.

Definition signed_inf (s : comparison) : number :=
  match s with
  | Eq => NaN
  | Gt => PInf
  | Lt => NInf
  end.

Definition sign_mul (s t : comparison) : comparison :=
  match s, t with
  | Eq, _ | _, Eq => Eq
  | Gt, Gt | Lt, Lt => Gt
  | Gt, Lt | Lt, Gt => Lt
  end.

(** [a * b]: an infinity times zero is [NaN]. *)
Definition mul (a b : number) : number :=
  match a, b with
  | NaN, _ | _, NaN => NaN
  | Fin x, Fin y => Fin (x * y)%Q
  | _, _ => signed_inf (sign_mul (sign a) (sign b))
  end.

(** [a / b]: a finite number over zero is an infinity of the sign of the
    numerator ([0 / 0] is [NaN]); an infinity over a finite number keeps or
    flips its sign, zero counting as positive. *)
Definition div (a b : number) : number :=
  match a, b with
  | NaN, _ | _, NaN => NaN
  | Fin x, Fin y => if is_zero y then signed_inf (x ?= 0)%Q else Fin (x / y)%Q
  | Fin _, _ => Fin 0%Q
  | _, Fin y =>
      match (y ?= 0)%Q with
      | Lt => neg a
      | _ => a
      end
  | _, _ => NaN
  end.

(** [a <= b]; false as soon as one side is [NaN]. *)
Definition le (a b : number) : bool :=
  match a, b with
  | NaN, _ | _, NaN => false
  | NInf, _ | _, PInf => true
  | Fin x, Fin y => Qle_bool x y
  | _, _ => false
  end.

(** [a < b]; false as soon as one side is [NaN]. *)
Definition lt (a b : number) : bool :=
  match a, b with
  | NaN, _ | _, NaN => false
  | PInf, _ | _, NInf => false
  | Fin x, Fin y => negb (Qle_bool y x)
  | _, _ => true
  end.

(** [Math.max(a, b)]. *)
Definition max2 (a b : number) : number :=
  match a, b with
  | NaN, _ | _, NaN => NaN
  | _, _ => if le a b then b else a
  end.

(** [Math.max(...xs)]; [-Infinity] when there is no argument. *)
Definition max_list (xs : list number) : number := foldl max2 NInf xs.

(** [Math.floor(a)]. *)
Definition floor (a : number) : number :=
  match a with
  | Fin q => of_Z (Qfloor q)
  | _ => a
  end.

(** [Math.round(a)]: the nearest integer, halves going up. *)
Definition round (a : number) : number :=
  match a with
  | Fin q => of_Z (Qfloor (q + (1 # 2))%Q)
  | _ => a
  end.

(** [Number.isFinite(a)]. *)
Definition isFinite (a : number) : bool :=
  match a with
  | Fin _ => true
  | _ => false
  end.

(** Truthiness of a number: neither [NaN] nor zero. *)
Definition truthy (a : number) : bool :=
  match a with
  | NaN => false
  | Fin q => negb (is_zero q)
  | _ => true
  end.

(** [a || b] where [a] is a number or [null]/[undefined] ([None]). *)
Definition or_else (a : option number) (b : number) : number :=
  match a with
  | Some x => if truthy x then x else b
  | None => b
  end.

(** Truthiness of a string or [undefined]: the empty string is falsy. *)
Definition truthy_string (s : option string) : bool :=
  match s with
  | Some s => negb (String.eqb s EmptyString)
  | None => false
  end.

(** The integers [k >= 0] with [k < bound], in ascending order: the values the
    counter of [for (let k = 0; k < bound; k++)] takes.  The loop does not
    terminate for [bound = Infinity]; the source never reaches a loop with
    such a bound (the allocation before it throws), and the model gives it
    no iteration. *)
Definition upto (bound : number) : list Z :=
  match bound with
  | Fin q => seqZ 0 (Qceiling q)
  | _ => []
  end.

(** The array index a number denotes, if it is a non-negative integer. *)
Definition to_index (a : number) : option nat :=
  match a with
  | Fin q =>
      if Qeq_bool q (inject_Z (Qfloor q)) && (0 <=? Qfloor q)
      then Some (Z.to_nat (Qfloor q)) else None
  | _ => None
  end.

(** [a === b] on numbers: [NaN] differs from everything. *)
Definition eqb (a b : number) : bool :=
  match a, b with
  | Fin x, Fin y => Qeq_bool x y
  | PInf, PInf | NInf, NInf => true
  | _, _ => false
  end.

(** [a] is the integer [z]. *)
Definition int_value (a : number) (z : Z) : Prop :=
  exists q, a = Fin q /\ (q == inject_Z z)%Q.

End JS.

Import JS.

(** ** Errors *)

(** The entries of [LighthouseError.errors] the audit names, and any other
    entry of that table. *)
Inductive LighthouseErrorDefinition : Type :=
| NO_SCREENSHOTS
| SPEEDINDEX_OF_ZERO
| NO_SPEEDLINE_FRAMES
| INVALID_SPEEDLINE
| OTHER_DEFINITION (code : string).

(** Modelled from the spec: the table [LighthouseError.errors] of
    [lib/lh-error.js] is not part of the sources, and the specification names
    its codes without spelling them; the [code] of each entry is taken to be
    the name of the entry.  No property below depends on the spelling. *)
Definition definition_code (d : LighthouseErrorDefinition) : string :=
  match d with
  | NO_SCREENSHOTS => "NO_SCREENSHOTS"
  | SPEEDINDEX_OF_ZERO => "SPEEDINDEX_OF_ZERO"
  | NO_SPEEDLINE_FRAMES => "NO_SPEEDLINE_FRAMES"
  | INVALID_SPEEDLINE => "INVALID_SPEEDLINE"
  | OTHER_DEFINITION code => code
  end.

(** What a [throw] carries. *)
Inductive exn : Type :=
| LighthouseError (errorDefinition : LighthouseErrorDefinition)
| TypeError (message : string)
| RangeError (message : string)
| OtherError (code : option string) (message : string).

(** [err.code]; [None] is [undefined]. *)
Definition err_code (err : exn) : option string :=
  match err with
  | LighthouseError d => Some (definition_code d)
  | TypeError _ | RangeError _ => None
  | OtherError code _ => code
  end.

(** How a call ends: it returns a value or throws. *)
Inductive outcome (A : Type) : Type :=
| Returned (a : A)
| Thrown (err : exn).
Arguments Returned {A} a.
Arguments Thrown {A} err.

(** ** Rasters *)

Record ImageData : Type := mkImageData {
  width : number;
  height : number;
  data : list Byte.byte;
}.

Definition NUMBER_OF_THUMBNAILS : Z := 10.
Definition THUMBNAIL_WIDTH : Z := 120.

(** [ToIntegerOrInfinity] on a finite number: truncation towards zero. *)
Definition truncate (q : Q) : Z :=
  if Qle_bool 0 q then Qfloor q else Qceiling q.

(** [new Uint8Array(length)]: zero-filled; [NaN] counts as length zero, a
    negative or infinite length throws.  The allocation limit of the engine
    is not modelled. *)
Definition new_Uint8Array (length : number) : outcome (list Byte.byte) :=
  match length with
  | NaN => Returned []
  | Fin q =>
      if truncate q <? 0 then Thrown (RangeError "Invalid typed array length")
      else Returned (replicate (Z.to_nat (truncate q)) Byte.x00)
  | _ => Thrown (RangeError "Invalid typed array length")
  end.

(** [array[pos]] on a typed array: [None] ([undefined]) unless [pos] is an
    index inside the array. *)
Definition ta_get (array : list Byte.byte) (pos : number) : option Byte.byte :=
  match to_index pos with
  | Some k => array !! k
  | None => None
  end.

(** [array[pos] = value] on a [Uint8Array]: [undefined] is stored as zero, a
    position that is not an index inside the array is ignored. *)
Definition ta_set (array : list Byte.byte) (pos : number)
    (value : option Byte.byte) : list Byte.byte :=
  match to_index pos with
  | Some k => <[k := default Byte.x00 value]> array
  | None => array
  end.

(** The body of the inner loop of [scaleImageToThumbnail]. *)
Definition copy_pixel (imageData : ImageData) (scaledWidth scaleFactor : number)
    (i j : Z) (outPixels : list Byte.byte) : list Byte.byte :=
  let origX := floor (mul (of_Z i) scaleFactor) in
  let origY := floor (mul (of_Z j) scaleFactor) in
  let origPos := mul (add (mul origY (width imageData)) origX) (of_Z 4) in
  let outPos := mul (add (mul (of_Z j) scaledWidth) (of_Z i)) (of_Z 4) in
  let outPixels := ta_set outPixels outPos (ta_get (data imageData) origPos) in
  let outPixels := ta_set outPixels (add outPos (of_Z 1))
                     (ta_get (data imageData) (add origPos (of_Z 1))) in
  let outPixels := ta_set outPixels (add outPos (of_Z 2))
                     (ta_get (data imageData) (add origPos (of_Z 2))) in
  ta_set outPixels (add outPos (of_Z 3))
    (ta_get (data imageData) (add origPos (of_Z 3))).

(** Scales an image down to [THUMBNAIL_WIDTH] by nearest neighbour. *)
Definition scaleImageToThumbnail (imageData : ImageData) : outcome ImageData :=
  let scaledWidth := of_Z THUMBNAIL_WIDTH in
  let scaleFactor := div (width imageData) scaledWidth in
  let scaledHeight := floor (div (height imageData) scaleFactor) in
  match new_Uint8Array (mul (mul scaledWidth scaledHeight) (of_Z 4)) with
  | Thrown err => Thrown err
  | Returned outPixels =>
      let outPixels :=
        foldl (fun outPixels i =>
                 foldl (fun outPixels j =>
                          copy_pixel imageData scaledWidth scaleFactor i j outPixels)
                       outPixels (upto scaledHeight))
              outPixels (upto scaledWidth) in
      Returned {| width := scaledWidth; height := scaledHeight; data := outPixels |}
  end.

(** Channel [c] of the pixel in column [x] and row [y] of an image, read the
    way the scaler addresses it. *)
Definition channel (image : ImageData) (x y : number) (c : Z) : option Byte.byte :=
  ta_get (data image)
         (add (mul (add (mul y (width image)) x) (of_Z 4)) (of_Z c)).

(** Four consecutive stores, starting at index [o]. *)
Definition write4 (o : Z) (v : Z -> Byte.byte) (out : list Byte.byte)
    : list Byte.byte :=
  <[Z.to_nat (o + 3) := v 3]>
    (<[Z.to_nat (o + 2) := v 2]>
       (<[Z.to_nat (o + 1) := v 1]>
          (<[Z.to_nat o := v 0]> out))).

(** ** Timelines and results *)

(** A frame of the timeline.  [frame_id] is the identity of the frame object,
    the key under which a [Map] files it: two entries of a timeline with the
    same [frame_id] are one object met twice. *)
Record SpeedlineFrame : Type := mkFrame {
  frame_id : positive;
  getTimeStamp : number;
  isProgressInterpolated : bool;
  getParsedImage : ImageData;
}.

(** [complete] is [None] when it is [null] or [undefined]. *)
Record Speedline : Type := mkSpeedline {
  frames : list SpeedlineFrame;
  beginning : number;
  complete : option number;
}.

(** [artifacts]: the trace of the default pass stands for what
    [Speedline.request] settles to on it, a timeline or a rejection. *)
Record Artifacts : Type := mkArtifacts {
  traces : outcome Speedline;
  gatherMode : string;
}.

(** [context.options]; a missing option is [None]. *)
Record Context : Type := mkContext {
  minimumTimelineDuration : option number;
}.

Module Item.
Record t : Type := mk {
  timing : number;
  timestamp : number;
  data : string;
}.
End Item.

Module Details.
Record t : Type := mk {
  type : string;
  scale : number;
  items : list Item.t;
}.
End Details.

Module Product.
Record t : Type := mk {
  score : number;
  notApplicable : option bool;
  details : option Details.t;
}.
End Product.

(** ** The build *)

(** The encoder of [jpeg-js] followed by the base64 conversion of its bytes:
    [jpeg.encode(image, quality).data.toString('base64')]. *)
Class Jpeg : Type := {
  encode_base64 : ImageData -> number -> string;
}.

(** Instrumentation: the scaler and encoder calls of a build, by frame. *)
Inductive Work : Type :=
| Scaled (id : positive)
| Encoded (id : positive).

Global Instance Work_eq_dec : EqDecision Work.
Proof. solve_decision. Defined.

(** The variables a build mutates, and the calls it has made so far (the
    latest first). *)
Record BuildState : Type := mkBuildState {
  cachedThumbnails : gmap positive string;
  thumbnails : list Item.t;
  work : list Work;
}.

Definition initial : BuildState :=
  {| cachedThumbnails := ∅; thumbnails := []; work := [] |}.

(** Computations over the build state that may throw; the state reached is
    kept when they do. *)
Definition Build (A : Type) : Type := BuildState -> BuildState * outcome A.

Definition ret {A} (a : A) : Build A := fun st => (st, Returned a).

Definition throw {A} (err : exn) : Build A := fun st => (st, Thrown err).

Definition bind {A B} (m : Build A) (k : A -> Build B) : Build B :=
  fun st =>
    match m st with
    | (st', Returned a) => k a st'
    | (st', Thrown err) => (st', Thrown err)
    end.

Notation "x <- m ;; k" := (bind m (fun x => k))
  (at level 20, m at level 99, k at level 200, only parsing).
Notation "'exec' m ;; k" := (bind m (fun _ => k))
  (at level 20, m at level 99, k at level 200, only parsing).

Definition get_cached (id : positive) : Build (option string) :=
  fun st => (st, Returned (cachedThumbnails st !! id)).

Definition set_cached (id : positive) (base64Data : string) : Build unit :=
  fun st =>
    ({| cachedThumbnails := <[id := base64Data]> (cachedThumbnails st);
        thumbnails := thumbnails st;
        work := work st |}, Returned tt).

Definition push (item : Item.t) : Build unit :=
  fun st =>
    ({| cachedThumbnails := cachedThumbnails st;
        thumbnails := thumbnails st ++ [item];
        work := work st |}, Returned tt).

Definition record (w : Work) : Build unit :=
  fun st =>
    ({| cachedThumbnails := cachedThumbnails st;
        thumbnails := thumbnails st;
        work := w :: work st |}, Returned tt).

(** A call whose outcome does not depend on the build state. *)
Definition call {A} (o : outcome A) : Build A := fun st => (st, o).

(** Runs the steps in order, stopping at the first that throws. *)
Fixpoint for_each {A} (body : A -> Build unit) (l : list A) : Build unit :=
  match l with
  | [] => ret tt
  | a :: l => exec body a ;; for_each body l
  end.

(** The result of a build that degrades gracefully. *)
Definition not_applicable : Product.t :=
  {| Product.score := of_Z 1;
     Product.notApplicable := Some true;
     Product.details := None |}.

(** The message of the [TypeError] of a call on [null]. *)
Definition null_frame : exn :=
  TypeError "Cannot read properties of null (reading 'getParsedImage')".

Section Audit.
Context `{Jpeg}.

Definition analyzedFrames (speedline : Speedline) : list SpeedlineFrame :=
  List.filter (fun frame => negb (isProgressInterpolated frame)) (frames speedline).

Definition maxFrameTime (speedline : Speedline) : number :=
  or_else (complete speedline)
    (max_list ((fun frame => sub (getTimeStamp frame) (beginning speedline))
                 <$> frames speedline)).

Definition timelineEnd (speedline : Speedline) (context : Context) : number :=
  max2 (maxFrameTime speedline) (or_else (minimumTimelineDuration context) (of_Z 3000)).

Definition targetTimestamp (speedline : Speedline) (context : Context) (i : Z) : number :=
  add (beginning speedline)
      (div (mul (timelineEnd speedline context) (of_Z i)) (of_Z NUMBER_OF_THUMBNAILS)).

(** The frame chosen for bucket [i]; [None] is [null]. *)
Definition frameForTimestamp (speedline : Speedline) (context : Context) (i : Z)
    : option SpeedlineFrame :=
  if i =? NUMBER_OF_THUMBNAILS
  then analyzedFrames speedline !! (length (analyzedFrames speedline) - 1)%nat
  else foldl (fun frameForTimestamp frame =>
                if le (getTimeStamp frame) (targetTimestamp speedline context i)
                then Some frame else frameForTimestamp)
             None (analyzedFrames speedline).

(** Lines 110 to 119: the payload of a frame, from the cache or the encoder.
    Nothing is ever filed under [null], so for a [null] frame the lookup gives
    [undefined] and the call of [getParsedImage] on [null] throws. *)
Definition base64Data (frameForTimestamp : option SpeedlineFrame) : Build string :=
  match frameForTimestamp with
  | None =>
      throw null_frame
  | Some frame =>
      cachedThumbnail <- get_cached (frame_id frame) ;;
      if truthy_string cachedThumbnail
      then ret (default EmptyString cachedThumbnail)
      else
        let imageData := getParsedImage frame in
        exec record (Scaled (frame_id frame)) ;;
        thumbnailImageData <- call (scaleImageToThumbnail imageData) ;;
        exec record (Encoded (frame_id frame)) ;;
        let base64Data := encode_base64 thumbnailImageData (of_Z 90) in
        exec set_cached (frame_id frame) base64Data ;;
        ret base64Data
  end.

(** The thumbnail pushed for bucket [i]. *)
Definition thumbnail (speedline : Speedline) (context : Context) (i : Z)
    (base64Data : string) : Item.t :=
  let targetTimestamp := targetTimestamp speedline context i in
  {| Item.timing := round (sub targetTimestamp (beginning speedline));
     Item.timestamp := mul targetTimestamp (of_Z 1000);
     Item.data := "data:image/jpeg;base64," +:+ base64Data |}.

(** The body of the loop over the buckets. *)
Definition bucket (speedline : Speedline) (context : Context) (i : Z) : Build unit :=
  base64Data <- base64Data (frameForTimestamp speedline context i) ;;
  push (thumbnail speedline context i base64Data).

(** The values of the counter of
    [for (let i = 1; i <= NUMBER_OF_THUMBNAILS; i++)]. *)
Definition buckets : list Z := seqZ 1 NUMBER_OF_THUMBNAILS.

(** The value [_audit] returns when the loop is over. *)
Definition filmstrip (speedline : Speedline) (context : Context) : Build Product.t :=
  fun st =>
    (st, Returned
           {| Product.score := of_Z 1;
              Product.notApplicable := None;
              Product.details :=
                Some {| Details.type := "filmstrip";
                        Details.scale := timelineEnd speedline context;
                        Details.items := thumbnails st |} |}).

(** The body of [_audit] after its two local collections are created. *)
Definition _audit_body (artifacts : Artifacts) (context : Context) : Build Product.t :=
  speedline <- call (traces artifacts) ;;
  if (length (analyzedFrames speedline) =? 0)%nat
     || negb (isFinite (timelineEnd speedline context))
  then throw (LighthouseError INVALID_SPEEDLINE)
  else
    exec for_each (bucket speedline context) buckets ;;
    filmstrip speedline context.

(** [_audit]: how the build ends, with the final value of its variables and
    the calls it made. *)
Definition _audit (artifacts : Artifacts) (context : Context)
    : BuildState * outcome Product.t :=
  _audit_body artifacts context initial.

Definition noFramesErrors : gset string :=
  {[ definition_code NO_SCREENSHOTS;
     definition_code SPEEDINDEX_OF_ZERO;
     definition_code NO_SPEEDLINE_FRAMES;
     definition_code INVALID_SPEEDLINE ]}.

(** [noFramesErrors.has(code)]; [undefined] is not in the set. *)
Definition has (codes : gset string) (code : option string) : bool :=
  match code with
  | Some c => bool_decide (c ∈ codes)
  | None => false
  end.

Definition audit (artifacts : Artifacts) (context : Context)
    : BuildState * outcome Product.t :=
  match _audit artifacts context with
  | (st, Returned product) => (st, Returned product)
  | (st, Thrown err) =>
      if has noFramesErrors (err_code err)
         && String.eqb (gatherMode artifacts) "timespan"
      then (st, Returned not_applicable)
      else (st, Thrown err)
  end.

End Audit.

(** The timeline end as the specification words it: [completion ?? max(...)],
    where only a missing completion gives way to the frames. *)
Definition spec_timelineEnd (speedline : Speedline) (context : Context) : number :=
  max2 (match complete speedline with
        | Some completion => completion
        | None =>
            max_list ((fun frame => sub (getTimeStamp frame) (beginning speedline))
                        <$> frames speedline)
        end)
       (or_else (minimumTimelineDuration context) (of_Z 3000)).

(** The frames are in ascending order of timestamp. *)
Definition chronological (l : list SpeedlineFrame) : Prop :=
  StronglySorted (fun f g => le (getTimeStamp f) (getTimeStamp g) = true) l.




(** The number of times a call was made in a build. *)
Definition calls (w : Work) (st : BuildState) : nat :=
  count_occ Work_eq_dec (work st) w.

(** Calls and cache agree: a frame not in the cache was neither scaled nor
    encoded; a frame in the cache has a non-empty payload and was scaled once
    and encoded once. *)
Definition cache_counted (st : BuildState) : Prop :=
  forall id,
    match cachedThumbnails st !! id with
    | None => calls (Scaled id) st = 0%nat /\ calls (Encoded id) st = 0%nat
    | Some s =>
        s <> EmptyString
        /\ calls (Scaled id) st = 1%nat /\ calls (Encoded id) st = 1%nat
    end.

(** The first four of the sixty-four symbols of base64, by value. *)
Definition base64_symbol (b : Byte.byte) : string :=
  match b with
  | Byte.x00 => "A"
  | Byte.x01 => "B"
  | Byte.x02 => "C"
  | _ => "D"
  end.

(** ** Sample inputs *)

Module Samples.

(** A 4 by 4 raster of sixteen different opaque greys, row by row: the pixel
    in column [x] and row [y] has the three colour channels [4 * y + x]. *)
Definition raster4x4 : ImageData :=
  {| width := of_Z 4;
     height := of_Z 4;
     data :=
       [ Byte.x00; Byte.x00; Byte.x00; Byte.xff;  Byte.x01; Byte.x01; Byte.x01; Byte.xff;
         Byte.x02; Byte.x02; Byte.x02; Byte.xff;  Byte.x03; Byte.x03; Byte.x03; Byte.xff;
         Byte.x04; Byte.x04; Byte.x04; Byte.xff;  Byte.x05; Byte.x05; Byte.x05; Byte.xff;
         Byte.x06; Byte.x06; Byte.x06; Byte.xff;  Byte.x07; Byte.x07; Byte.x07; Byte.xff;
         Byte.x08; Byte.x08; Byte.x08; Byte.xff;  Byte.x09; Byte.x09; Byte.x09; Byte.xff;
         Byte.x0a; Byte.x0a; Byte.x0a; Byte.xff;  Byte.x0b; Byte.x0b; Byte.x0b; Byte.xff;
         Byte.x0c; Byte.x0c; Byte.x0c; Byte.xff;  Byte.x0d; Byte.x0d; Byte.x0d; Byte.xff;
         Byte.x0e; Byte.x0e; Byte.x0e; Byte.xff;  Byte.x0f; Byte.x0f; Byte.x0f; Byte.xff ] |}.


(** A 240 by 2 raster filled with one byte. *)
Definition raster240x2 (fill : Byte.byte) : ImageData :=
  {| width := of_Z 240;
     height := of_Z 2;
     data := replicate (Z.to_nat (240 * 2 * 4)) fill |}.

(** A stand-in for the encoder: the JPEG start-of-image marker in base64,
    then one symbol taken from the first byte of the raster. *)
Definition jpeg : Jpeg :=
  {| encode_base64 := fun image quality =>
       "/9j/" +:+ base64_symbol (default Byte.x00 (data image !! 0%nat)) |}.

Definition frame1 : SpeedlineFrame :=
  {| frame_id := 1; getTimeStamp := of_Z 1000; isProgressInterpolated := false;
     getParsedImage := raster240x2 Byte.x00 |}.
Definition frame2 : SpeedlineFrame :=
  {| frame_id := 2; getTimeStamp := of_Z 1400; isProgressInterpolated := true;
     getParsedImage := raster240x2 Byte.x01 |}.
Definition frame3 : SpeedlineFrame :=
  {| frame_id := 3; getTimeStamp := of_Z 2500; isProgressInterpolated := false;
     getParsedImage := raster240x2 Byte.x02 |}.
Definition frame4 : SpeedlineFrame :=
  {| frame_id := 4; getTimeStamp := of_Z 3900; isProgressInterpolated := false;
     getParsedImage := raster240x2 Byte.xff |}.

(** A timeline that begins at 1000 ms: three analyzed frames and an
    interpolated one, the last frame 2900 ms after the beginning. *)
Definition timeline : Speedline :=
  {| frames := [frame1; frame2; frame3; frame4];
     beginning := of_Z 1000;
     complete := None |}.

Definition default_context : Context := {| minimumTimelineDuration := None |}.

Definition navigation (request : outcome Speedline) : Artifacts :=
  {| traces := request; gatherMode := "navigation" |}.

Definition timespan (request : outcome Speedline) : Artifacts :=
  {| traces := request; gatherMode := "timespan" |}.


(** A timeline whose only analyzed frame comes 2000 ms after the beginning,
    later than the first target of a 5000 ms timeline. *)
Definition late_timeline : Speedline :=
  {| frames := [ {| frame_id := 1; getTimeStamp := of_Z 2000;
                    isProgressInterpolated := false;
                    getParsedImage := raster240x2 Byte.x00 |} ];
     beginning := of_Z 0;
     complete := Some (of_Z 5000) |}.

(** A timeline complete after 5000 ms. *)
Definition complete_at_5000 : Speedline :=
  {| frames := [frame1]; beginning := of_Z 1000; complete := Some (of_Z 5000) |}.

(** A timeline whose completion time is zero, its last frame 1500 ms after
    the beginning. *)
Definition complete_at_zero : Speedline :=
  {| frames := [ frame1;
                 {| frame_id := 5; getTimeStamp := of_Z 2500;
                    isProgressInterpolated := false;
                    getParsedImage := raster240x2 Byte.x01 |} ];
     beginning := of_Z 1000;
     complete := Some (of_Z 0) |}.


(** A timeline all of whose frames are interpolated. *)
Definition interpolated_timeline : Speedline :=
  {| frames := [frame2]; beginning := of_Z 1000; complete := Some (of_Z 400) |}.

Definition minimum (duration : Z) : Context :=
  {| minimumTimelineDuration := Some (of_Z duration) |}.

(** What the build returns on [timeline] under the default minimum, with the
    stand-in encoder: the frame at 1000 holds until bucket 4, the frame at
    2500 from bucket 5 to bucket 9, and bucket 10 shows the frame at 3900. *)
Definition filmstrip_of_timeline : Product.t :=
  {| Product.score := of_Z 1;
     Product.notApplicable := None;
     Product.details :=
       Some {| Details.type := "filmstrip";
               Details.scale := of_Z 3000;
               Details.items :=
                 [ thumbnail timeline default_context 1 "/9j/A";
                   thumbnail timeline default_context 2 "/9j/A";
                   thumbnail timeline default_context 3 "/9j/A";
                   thumbnail timeline default_context 4 "/9j/A";
                   thumbnail timeline default_context 5 "/9j/C";
                   thumbnail timeline default_context 6 "/9j/C";
                   thumbnail timeline default_context 7 "/9j/C";
                   thumbnail timeline default_context 8 "/9j/C";
                   thumbnail timeline default_context 9 "/9j/C";
                   thumbnail timeline default_context 10 "/9j/D" ] |} |}.

End Samples.

(** ** Further definitions *)


(** The timeline with its interpolated frames left out. *)
Definition without_interpolated (speedline : Speedline) : Speedline :=
  {| frames := analyzedFrames speedline;
     beginning := beginning speedline;
     complete := complete speedline |}.

Definition is_scaled (w : Work) : bool :=
  match w with Scaled _ => true | Encoded _ => false end.

Definition is_encoded (w : Work) : bool :=
  match w with Encoded _ => true | Scaled _ => false end.

(** The call concerns the frame object [id]. *)
Definition work_frame (w : Work) : positive :=
  match w with Scaled id | Encoded id => id end.

(** *** The manual audit [use-landmarks] *)

Module UseLandmarks.

(** The value of a property of a meta object: a string, or a value of
    another kind [V]. *)
Inductive value (V : Type) : Type :=
| Text (s : string)
| Other (v : V).
Arguments Text {V} s.
Arguments Other {V} v.




End UseLandmarks.

Module MoreSamples.


(** A 120 by 1 raster whose bytes count up from zero. *)
Definition raster120x1 : ImageData :=
  {| width := of_Z 120;
     height := of_Z 1;
     data := (fun k => default Byte.x00 (Byte.of_nat (k mod 256)))
               <$> seq 0 (Z.to_nat (120 * 1 * 4)) |}.


(** A raster without columns. *)
Definition no_columns (h : Z) : ImageData :=
  {| width := of_Z 0; height := of_Z h; data := [] |}.


(** A page that does not change: one analyzed frame, taken at the beginning. *)
Definition still_timeline : Speedline :=
  {| frames := [Samples.frame1]; beginning := of_Z 1000; complete := None |}.

(** The sample timeline, complete 2900 ms after its beginning. *)
Definition completed_timeline : Speedline :=
  {| frames := [Samples.frame1; Samples.frame2; Samples.frame3; Samples.frame4];
     beginning := of_Z 1000;
     complete := Some (of_Z 2900) |}.


End MoreSamples.

(** * Properties *)

(** ** Numbers *)

Section Numbers.

Lemma int_value_of_Z z : int_value (of_Z z) z.
Proof. exists (inject_Z z). split; [reflexivity | apply Qeq_refl]. Qed.

Lemma int_value_add a b x y :
  int_value a x -> int_value b y -> int_value (add a b) (x + y).
Proof.
  intros (p & -> & Hp) (q & -> & Hq). exists (p + q)%Q. split; [reflexivity |].
  rewrite Hp, Hq, inject_Z_plus. apply Qeq_refl.
Qed.

Lemma int_value_mul a b x y :
  int_value a x -> int_value b y -> int_value (mul a b) (x * y).
Proof.
  intros (p & -> & Hp) (q & -> & Hq). exists (p * q)%Q. split; [reflexivity |].
  rewrite Hp, Hq, inject_Z_mult. apply Qeq_refl.
Qed.

Lemma to_index_int a z :
  int_value a z -> 0 <= z -> to_index a = Some (Z.to_nat z).
Proof.
  intros (q & -> & Hq) Hz. unfold to_index.
  assert (Hf : Qfloor q = z) by (rewrite Hq; apply Qfloor_Z).
  rewrite Hf.
  assert (Qeq_bool q (inject_Z z) = true) as -> by now apply Qeq_bool_iff.
  assert ((0 <=? z) = true) as -> by now apply Z.leb_le.
  reflexivity.
Qed.

Lemma upto_of_Z z : upto (of_Z z) = seqZ 0 z.
Proof. unfold upto, of_Z. now rewrite Qceiling_Z. Qed.

Lemma le_Fin x y : le (Fin x) (Fin y) = true <-> (x <= y)%Q.
Proof. apply Qle_bool_iff. Qed.

Lemma lt_Fin x y : lt (Fin x) (Fin y) = true <-> (x < y)%Q.
Proof.
  simpl. rewrite negb_true_iff. split.
  - intros Hb. apply Qnot_le_lt. intros Hle.
    apply Qle_bool_iff in Hle. congruence.
  - intros Hlt. destruct (Qle_bool y x) eqn:E; [| reflexivity].
    apply Qle_bool_iff in E. now apply Qle_not_lt in E.
Qed.

Lemma le_trans a b c : le a b = true -> le b c = true -> le a c = true.
Proof.
  destruct a, b, c; simpl; try congruence.
  rewrite !Qle_bool_iff. apply Qle_trans.
Qed.

Lemma le_not_NaN_l a b : le a b = true -> a <> NaN.
Proof. now destruct a. Qed.

Lemma le_refl a : a <> NaN -> le a a = true.
Proof.
  destruct a; simpl; try congruence. intros _. apply Qle_bool_iff, Qle_refl.
Qed.

Lemma isFinite_Fin a : isFinite a = true -> exists q, a = Fin q.
Proof. destruct a; simpl; try discriminate. eauto. Qed.

End Numbers.

Ltac int_value_tac :=
  repeat first [ apply int_value_add | apply int_value_mul | apply int_value_of_Z ].

(** ** The scaler *)

Section Scaler.

Lemma ta_get_int (array : list Byte.byte) a z :
  int_value a z -> 0 <= z -> ta_get array a = array !! Z.to_nat z.
Proof. intros Ha Hz. unfold ta_get. now rewrite (to_index_int a z). Qed.

Lemma ta_set_int (array : list Byte.byte) a z v :
  int_value a z -> 0 <= z ->
  ta_set array a v = <[Z.to_nat z := default Byte.x00 v]> array.
Proof. intros Ha Hz. unfold ta_set. now rewrite (to_index_int a z). Qed.

Lemma write4_length o v (out : list Byte.byte) : length (write4 o v out) = length out.
Proof. unfold write4. now rewrite !length_insert. Qed.

Lemma write4_lookup_in o v (out : list Byte.byte) c :
  0 <= o -> 0 <= c < 4 -> (Z.to_nat (o + c) < length out)%nat ->
  write4 o v out !! Z.to_nat (o + c) = Some (v c).
Proof.
  intros Ho Hc Hlen. unfold write4.
  assert (c = 0 \/ c = 1 \/ c = 2 \/ c = 3) as [-> | [-> | [-> | ->]]] by lia.
  - rewrite Z.add_0_r in *.
    rewrite !list_lookup_insert_ne by lia.
    apply list_lookup_insert_eq. lia.
  - rewrite !list_lookup_insert_ne by lia.
    apply list_lookup_insert_eq. rewrite length_insert. lia.
  - rewrite !list_lookup_insert_ne by lia.
    apply list_lookup_insert_eq. rewrite !length_insert. lia.
  - apply list_lookup_insert_eq. rewrite !length_insert. lia.
Qed.

Lemma write4_lookup_out o v (out : list Byte.byte) p :
  0 <= o -> (p < Z.to_nat o \/ Z.to_nat o + 4 <= p)%nat ->
  write4 o v out !! p = out !! p.
Proof.
  intros Ho Hp. unfold write4. now rewrite !list_lookup_insert_ne by lia.
Qed.

(** A sequence of block writes whose blocks do not overlap unless they have
    the same key: every key of the sequence finds its values afterwards. *)
Lemma fold_write4_lookup {K} (pos : K -> Z) (val : K -> Z -> Byte.byte)
    (ks : list K) (out0 : list Byte.byte) :
  (forall k, k ∈ ks -> 0 <= pos k) ->
  (forall k1 k2, k1 ∈ ks -> k2 ∈ ks ->
     pos k1 < pos k2 + 4 -> pos k2 < pos k1 + 4 -> k1 = k2) ->
  length (foldl (fun out k => write4 (pos k) (val k) out) out0 ks) = length out0
  /\ forall k c, k ∈ ks -> 0 <= c < 4 ->
       (Z.to_nat (pos k + c) < length out0)%nat ->
       foldl (fun out k => write4 (pos k) (val k) out) out0 ks
         !! Z.to_nat (pos k + c) = Some (val k c).
Proof.
  induction ks as [| a ks IH] using rev_ind; intros Hpos Hdisj.
  - split; [reflexivity |]. intros k c Hk. now apply elem_of_nil in Hk.
  - rewrite foldl_snoc. destruct IH as [IHlen IHget].
    { intros k Hk. apply Hpos, elem_of_app. now left. }
    { intros k1 k2 H1 H2. apply Hdisj; apply elem_of_app; now left. }
    split; [now rewrite write4_length |].
    intros k c Hk Hc Hlen.
    assert (Hin : a ∈ ks ++ [a]).
    { apply elem_of_app. right. apply list_elem_of_singleton. reflexivity. }
    assert (Ha : 0 <= pos a) by now apply Hpos.
    assert (Hk0 : 0 <= pos k) by now apply Hpos.
    destruct (Z_lt_dec (pos k + c) (pos a)) as [Hlo | Hlo];
      [| destruct (Z_le_dec (pos a + 4) (pos k + c)) as [Hhi | Hhi]].
    + rewrite write4_lookup_out by lia.
      apply elem_of_app in Hk as [Hk | Hk]; [now apply IHget |].
      apply list_elem_of_singleton in Hk. subst. lia.
    + rewrite write4_lookup_out by lia.
      apply elem_of_app in Hk as [Hk | Hk]; [now apply IHget |].
      apply list_elem_of_singleton in Hk. subst. lia.
    + assert (k = a) as -> by (apply Hdisj; [done | done | lia | lia]).
      apply write4_lookup_in; [lia | lia | now rewrite IHlen].
Qed.

Lemma foldl_ext_in {A B} (f g : A -> B -> A) (l : list B) a :
  (forall a b, b ∈ l -> f a b = g a b) -> foldl f a l = foldl g a l.
Proof.
  revert a. induction l as [| b l IH]; intros a Hfg; [reflexivity |].
  simpl. rewrite Hfg by apply list_elem_of_here.
  apply IH. intros a' b' Hb'. apply Hfg. now apply list_elem_of_further.
Qed.

Lemma foldl_nested {A B C} (f : B -> C -> A -> A) (bs : list B) (cs : list C) a :
  foldl (fun a b => foldl (fun a c => f b c a) a cs) a bs
  = foldl (fun a bc => f bc.1 bc.2 a) a (b ← bs; (fun c => (b, c)) <$> cs).
Proof.
  revert a. induction bs as [| b bs IH]; intros a; [reflexivity |].
  simpl. rewrite foldl_app, foldl_fmap. simpl. apply IH.
Qed.

End Scaler.

Section ScalerSpec.

Local Open Scope Q_scope.

Lemma scaleFactor_Fin w :
  (1 <= w)%Z -> div (of_Z w) (of_Z THUMBNAIL_WIDTH) = Fin (inject_Z w / inject_Z 120).
Proof. reflexivity. Qed.

Lemma scaleFactor_nonzero w : (1 <= w)%Z -> is_zero (inject_Z w / inject_Z 120) = false.
Proof.
  intros Hw. unfold is_zero. apply not_true_is_false. intros E.
  apply Qeq_bool_iff in E.
  assert (Hpos : 0 < inject_Z w / inject_Z 120).
  { apply Qlt_shift_div_l; [reflexivity |]. rewrite Qmult_0_l.
    unfold Qlt. simpl. lia. }
  rewrite E in Hpos. now apply Qlt_irrefl in Hpos.
Qed.

Lemma floor_scaled_height w h :
  (1 <= w)%Z ->
  Qfloor (inject_Z h / (inject_Z w / inject_Z 120)) = (120 * h / w)%Z.
Proof.
  intros Hw.
  assert (Hw' : ~ inject_Z w == 0).
  { intros E. apply (inject_Z_injective w 0) in E. lia. }
  assert (E : inject_Z h / (inject_Z w / inject_Z 120)
              == inject_Z (120 * h) / inject_Z w).
  { rewrite inject_Z_mult. field. exact Hw'. }
  rewrite E. symmetry. apply Zdiv_Qdiv.
Qed.

Lemma floor_scaled_coordinate w i :
  Qfloor (inject_Z i * (inject_Z w / inject_Z 120)) = (i * w / 120)%Z.
Proof.
  assert (E : inject_Z i * (inject_Z w / inject_Z 120)
              == inject_Z (i * w) / inject_Z 120).
  { rewrite inject_Z_mult. field. }
  rewrite E. symmetry. apply Zdiv_Qdiv.
Qed.

Local Close Scope Q_scope.

(** One iteration of the inner loop, on integer coordinates. *)
Lemma copy_pixel_write4 imageData w i j out :
  width imageData = of_Z w -> 0 <= w -> 0 <= i -> 0 <= j ->
  copy_pixel imageData (of_Z THUMBNAIL_WIDTH) (Fin (inject_Z w / inject_Z 120)) i j out
  = write4 ((j * 120 + i) * 4)
      (fun c => default Byte.x00
         (data imageData !! Z.to_nat ((j * w / 120 * w + i * w / 120) * 4 + c)))
      out.
Proof.
  intros Hwidth Hw Hi Hj. unfold copy_pixel, write4. rewrite Hwidth.
  change (floor (mul (of_Z i) (Fin (inject_Z w / inject_Z 120))))
    with (of_Z (Qfloor (inject_Z i * (inject_Z w / inject_Z 120)))).
  change (floor (mul (of_Z j) (Fin (inject_Z w / inject_Z 120))))
    with (of_Z (Qfloor (inject_Z j * (inject_Z w / inject_Z 120)))).
  rewrite !floor_scaled_coordinate.
  assert (Hx : 0 <= i * w / 120) by (apply Z.div_pos; lia).
  assert (Hy : 0 <= j * w / 120) by (apply Z.div_pos; lia).
  set (O := (j * w / 120 * w + i * w / 120) * 4).
  set (P := (j * 120 + i) * 4).
  assert (HO : 0 <= O) by (unfold O; nia).
  assert (HP : 0 <= P) by (unfold P; lia).
  set (origPos := mul (add (mul (of_Z (j * w / 120)) (of_Z w))
                           (of_Z (i * w / 120))) (of_Z 4)).
  set (outPos := mul (add (mul (of_Z j) (of_Z THUMBNAIL_WIDTH)) (of_Z i)) (of_Z 4)).
  assert (IO : int_value origPos O) by (unfold O, origPos; int_value_tac).
  assert (IP : int_value outPos P) by (unfold P, outPos; int_value_tac).
  rewrite (ta_get_int _ origPos O IO HO).
  rewrite (ta_get_int _ (add origPos (of_Z 1)) (O + 1))
    by solve [lia | int_value_tac; assumption].
  rewrite (ta_get_int _ (add origPos (of_Z 2)) (O + 2))
    by solve [lia | int_value_tac; assumption].
  rewrite (ta_get_int _ (add origPos (of_Z 3)) (O + 3))
    by solve [lia | int_value_tac; assumption].
  rewrite (ta_set_int _ outPos P _ IP HP).
  rewrite (ta_set_int _ (add outPos (of_Z 1)) (P + 1))
    by solve [lia | int_value_tac; assumption].
  rewrite (ta_set_int _ (add outPos (of_Z 2)) (P + 2))
    by solve [lia | int_value_tac; assumption].
  rewrite (ta_set_int _ (add outPos (of_Z 3)) (P + 3))
    by solve [lia | int_value_tac; assumption].
  now rewrite Z.add_0_r.
Qed.

Lemma new_Uint8Array_int a z :
  int_value a z -> 0 <= z ->
  new_Uint8Array a = Returned (replicate (Z.to_nat z) Byte.x00).
Proof.
  intros (q & -> & Hq) Hz. unfold new_Uint8Array, truncate.
  assert (Qle_bool 0 q = true) as ->.
  { apply Qle_bool_iff. rewrite Hq. unfold Qle. simpl. lia. }
  assert (Qfloor q = z) as -> by (rewrite Hq; apply Qfloor_Z).
  assert ((z <? 0) = false) as -> by now apply Z.ltb_ge.
  reflexivity.
Qed.

Lemma elem_of_pixels i j (w h : Z) :
  (i, j) ∈ (a ← seqZ 0 w; (fun b => (a, b)) <$> seqZ 0 h)
  <-> 0 <= i < w /\ 0 <= j < h.
Proof.
  rewrite list_elem_of_bind. split.
  - intros (a & Hin & Ha). apply list_elem_of_fmap in Hin as (b & Heq & Hb).
    injection Heq as -> ->. apply elem_of_seqZ in Ha, Hb. lia.
  - intros [Hi Hj]. exists i. split; [| apply elem_of_seqZ; lia].
    apply list_elem_of_fmap. exists j. split; [reflexivity |].
    apply elem_of_seqZ. lia.
Qed.

(** What the scaler returns on a raster of integer size: the size of the
    thumbnail and where each of its bytes comes from. *)
Lemma scaleImageToThumbnail_spec imageData w h :
  width imageData = of_Z w -> height imageData = of_Z h -> 1 <= w -> 0 <= h ->
  exists outPixels,
    scaleImageToThumbnail imageData
    = Returned {| width := of_Z 120; height := of_Z (120 * h / w); data := outPixels |}
    /\ length outPixels = Z.to_nat (120 * (120 * h / w) * 4)
    /\ forall i j c, 0 <= i < 120 -> 0 <= j < 120 * h / w -> 0 <= c < 4 ->
         outPixels !! Z.to_nat ((j * 120 + i) * 4 + c)
         = Some (default Byte.x00
                   (data imageData
                      !! Z.to_nat ((j * w / 120 * w + i * w / 120) * 4 + c))).
Proof.
  intros Hwidth Hheight Hw Hh.
  set (H := 120 * h / w).
  assert (HH : 0 <= H) by (apply Z.div_pos; lia).
  unfold scaleImageToThumbnail. rewrite Hwidth, Hheight, scaleFactor_Fin by done.
  assert (div (of_Z h) (Fin (inject_Z w / inject_Z 120))
          = Fin (inject_Z h / (inject_Z w / inject_Z 120))) as ->.
  { unfold div, of_Z. now rewrite scaleFactor_nonzero. }
  change (floor (Fin (inject_Z h / (inject_Z w / inject_Z 120))))
    with (of_Z (Qfloor (inject_Z h / (inject_Z w / inject_Z 120)))).
  rewrite floor_scaled_height by done. fold H.
  rewrite (new_Uint8Array_int _ (120 * H * 4)) by solve [lia | int_value_tac].
  rewrite !upto_of_Z, foldl_nested.
  set (pos := fun k : Z * Z => (k.2 * 120 + k.1) * 4).
  set (val := fun (k : Z * Z) (c : Z) =>
                default Byte.x00
                  (data imageData
                     !! Z.to_nat ((k.2 * w / 120 * w + k.1 * w / 120) * 4 + c))).
  set (ks := a ← seqZ 0 THUMBNAIL_WIDTH; (fun b => (a, b)) <$> seqZ 0 H).
  rewrite (foldl_ext_in _ (fun out k => write4 (pos k) (val k) out)).
  2:{ intros out [i j] Hin. apply elem_of_pixels in Hin. simpl.
      apply copy_pixel_write4; [done | lia ..]. }
  destruct (fold_write4_lookup pos val ks
              (replicate (Z.to_nat (120 * H * 4)) Byte.x00)) as [Hlen Hget].
  { intros [i j] Hin. apply elem_of_pixels in Hin. unfold pos. simpl. lia. }
  { intros [i1 j1] [i2 j2] H1 H2. apply elem_of_pixels in H1, H2.
    unfold pos, THUMBNAIL_WIDTH in *. simpl. intros Hlt1 Hlt2.
    assert (j1 = j2) by lia. assert (i1 = i2) by lia. congruence. }
  eexists. split; [reflexivity |]. split.
  - rewrite Hlen. apply length_replicate.
  - intros i j c Hi Hj Hc.
    assert (Hin : (i, j) ∈ ks) by (apply elem_of_pixels; unfold THUMBNAIL_WIDTH; lia).
    specialize (Hget (i, j) c Hin Hc). unfold pos, val in Hget. simpl in Hget.
    apply Hget. rewrite length_replicate. lia.
Qed.

End ScalerSpec.

Section ScalerClaims.




Lemma channel_int image w x y c :
  width image = of_Z w -> 0 <= (y * w + x) * 4 + c ->
  channel image (of_Z x) (of_Z y) c
  = data image !! Z.to_nat ((y * w + x) * 4 + c).
Proof.
  intros Hwidth Hpos. unfold channel. rewrite Hwidth.
  apply ta_get_int; [int_value_tac | done].
Qed.


End ScalerClaims.

Section ScalerTheorems.



(** C9, as stated, fails: on the 4 by 4 raster of sixteen different colours
    the scaler does not produce a 2 by 2 raster whose pixel (1,1) is the
    input pixel (2,2); its output is 120 wide and its pixel (1,1) is the
    input pixel (0,0). *)
Lemma scale_raster4x4_not_2x2 :
  ~ (exists thumbnail,
       scaleImageToThumbnail Samples.raster4x4 = Returned thumbnail
       /\ width thumbnail = of_Z 2 /\ height thumbnail = of_Z 2
       /\ (forall c, 0 <= c < 4 ->
             channel thumbnail (of_Z 0) (of_Z 0) c
             = channel Samples.raster4x4 (of_Z 0) (of_Z 0) c)
       /\ (forall c, 0 <= c < 4 ->
             channel thumbnail (of_Z 1) (of_Z 1) c
             = channel Samples.raster4x4 (of_Z 2) (of_Z 2) c)).
Proof.
  intros (thumbnail & Hrun & Hw & _ & _ & H11).
  destruct (scaleImageToThumbnail_spec Samples.raster4x4 4 4)
    as (outPixels & Hspec & _ & Hget); [reflexivity | reflexivity | lia | lia |].
  rewrite Hspec in Hrun. injection Hrun as <-.
  specialize (H11 0 ltac:(lia)).
  rewrite (channel_int _ 120) in H11 by (reflexivity || lia).
  cbn [data] in H11. rewrite (Hget 1 1 0) in H11 by (vm_compute; intuition congruence).
  vm_compute in H11. discriminate H11.
Qed.

(** C9, amended. For a 4 by 4 input raster the scale factor is 1/30 and the
    scaler produces a 120 by 120 output in which pixel [(i, j)] is input
    pixel [(floor (i / 30), floor (j / 30))]: output pixel (0,0) is input
    pixel (0,0), output pixel (1,1) is input pixel (0,0) too, and output
    pixel (60,60) is input pixel (2,2). *)
Theorem scale_4x4_raster imageData :
  width imageData = of_Z 4 -> height imageData = of_Z 4 ->
  length (data imageData) = 64%nat ->
  eqb (div (width imageData) (of_Z THUMBNAIL_WIDTH)) (Fin (1 # 30)) = true
  /\ exists thumbnail,
       scaleImageToThumbnail imageData = Returned thumbnail
       /\ width thumbnail = of_Z 120 /\ height thumbnail = of_Z 120
       /\ (forall i j c, 0 <= i < 120 -> 0 <= j < 120 -> 0 <= c < 4 ->
             exists b,
               channel thumbnail (of_Z i) (of_Z j) c = Some b
               /\ channel imageData (of_Z (i / 30)) (of_Z (j / 30)) c = Some b)
       /\ (forall c, 0 <= c < 4 ->
             channel thumbnail (of_Z 0) (of_Z 0) c
             = channel imageData (of_Z 0) (of_Z 0) c
             /\ channel thumbnail (of_Z 1) (of_Z 1) c
               = channel imageData (of_Z 0) (of_Z 0) c
             /\ channel thumbnail (of_Z 60) (of_Z 60) c
               = channel imageData (of_Z 2) (of_Z 2) c).
Proof.
  intros Hwidth Hheight Hlen. split; [rewrite Hwidth; reflexivity |].
  destruct (scaleImageToThumbnail_spec imageData 4 4 Hwidth Hheight)
    as (outPixels & Hrun & _ & Hget); [lia | lia |].
  change (120 * 4 / 4) with 120 in *.
  eexists. split; [exact Hrun |]. cbn [width height data].
  split; [reflexivity |]. split; [reflexivity |].
  assert (Hpix : forall i j c, 0 <= i < 120 -> 0 <= j < 120 -> 0 <= c < 4 ->
            exists b,
              channel {| width := of_Z 120; height := of_Z 120; data := outPixels |}
                (of_Z i) (of_Z j) c = Some b
              /\ channel imageData (of_Z (i / 30)) (of_Z (j / 30)) c = Some b).
  { intros i j c Hi Hj Hc.
    assert (Ei : i * 4 / 120 = i / 30)
      by (rewrite <- (Z.div_mul_cancel_r i 30 4) by lia; reflexivity).
    assert (Ej : j * 4 / 120 = j / 30)
      by (rewrite <- (Z.div_mul_cancel_r j 30 4) by lia; reflexivity).
    assert (Hx : 0 <= i / 30 < 4)
      by (split; [apply Z.div_pos; lia | apply Z.div_lt_upper_bound; lia]).
    assert (Hy : 0 <= j / 30 < 4)
      by (split; [apply Z.div_pos; lia | apply Z.div_lt_upper_bound; lia]).
    rewrite (channel_int _ 120) by (reflexivity || lia).
    rewrite (channel_int _ 4) by (assumption || lia).
    cbn [data]. rewrite Hget, Ei, Ej by lia.
    destruct (lookup_lt_is_Some_2 (data imageData)
                (Z.to_nat ((j / 30 * 4 + i / 30) * 4 + c))) as [b Hb]; [lia |].
    exists b. now rewrite Hb. }
  split; [exact Hpix |].
  intros c Hc.
  destruct (Hpix 0 0 c) as (b0 & -> & H0); [lia .. |].
  destruct (Hpix 1 1 c) as (b1 & -> & H1); [lia .. |].
  destruct (Hpix 60 60 c) as (b2 & -> & H2); [lia .. |].
  change (0 / 30) with 0 in H0. change (1 / 30) with 0 in H1.
  change (60 / 30) with 2 in H2. rewrite H0 in H1 |- *. rewrite H2.
  injection H1 as ->. done.
Qed.

(** The amended claim on the raster of sixteen colours. *)
Lemma scale_4x4_raster_witness :
  exists thumbnail,
    scaleImageToThumbnail Samples.raster4x4 = Returned thumbnail
    /\ width thumbnail = of_Z 120 /\ height thumbnail = of_Z 120
    /\ channel thumbnail (of_Z 0) (of_Z 0) 0 = Some Byte.x00
    /\ channel thumbnail (of_Z 1) (of_Z 1) 0 = Some Byte.x00
    /\ channel thumbnail (of_Z 60) (of_Z 60) 0 = Some Byte.x0a.
Proof.
  destruct (scale_4x4_raster Samples.raster4x4)
    as (_ & thumbnail & Hrun & Hw & Hh & _ & Hpix);
    [reflexivity | reflexivity | reflexivity |].
  exists thumbnail. split; [exact Hrun |]. split; [exact Hw |].
  split; [exact Hh |].
  destruct (Hpix 0) as (-> & -> & ->); [lia |].
  repeat split; vm_compute; reflexivity.
Defined.

End ScalerTheorems.

(** ** The sampler *)

Section Sampler.

Lemma fold_keep_last {A} (P : A -> bool) (l : list A) (acc : option A) :
  foldl (fun acc a => if P a then Some a else acc) acc l
  = match last (List.filter P l) with
    | Some a => Some a
    | None => acc
    end.
Proof.
  revert acc. induction l as [| a l IH]; intros acc; [reflexivity |].
  cbn [foldl List.filter]. rewrite IH. destruct (P a) eqn:Pa; [| reflexivity].
  rewrite last_cons. now destruct (last (List.filter P l)).
Qed.

Lemma last_filter_split {A} (P : A -> bool) (l : list A) a :
  last (List.filter P l) = Some a ->
  P a = true
  /\ exists earlier later,
       l = earlier ++ a :: later /\ Forall (fun b => P b = false) later.
Proof.
  induction l as [| b l IH]; [discriminate |].
  cbn [List.filter]. destruct (P b) eqn:Pb.
  - rewrite last_cons. destruct (last (List.filter P l)) as [a' |] eqn:E.
    + intros [= ->]. destruct (IH eq_refl) as (Pa & earlier & later & -> & Hl).
      split; [exact Pa |]. now exists (b :: earlier), later.
    + intros [= ->]. split; [exact Pb |]. exists [], l. split; [reflexivity |].
      apply last_None in E. apply Forall_forall. intros c Hc.
      destruct (P c) eqn:Pc; [| reflexivity].
      assert (Hin : In c (List.filter P l)).
      { apply filter_In. split; [now apply list_elem_of_In | exact Pc]. }
      rewrite E in Hin. destruct Hin.
  - intros Hlast. destruct (IH Hlast) as (Pa & earlier & later & -> & Hl).
    split; [exact Pa |]. now exists (b :: earlier), later.
Qed.

Lemma StronglySorted_filter {A} (R : relation A) (P : A -> bool) (l : list A) :
  StronglySorted R l -> StronglySorted R (List.filter P l).
Proof.
  induction 1 as [| a l Hl IH Ha]; [constructor |].
  cbn [List.filter]. destruct (P a); [| exact IH].
  constructor; [exact IH |].
  apply Forall_forall. intros b Hb. apply list_elem_of_In, filter_In in Hb as [Hb _].
  rewrite Forall_forall in Ha. apply Ha. now apply list_elem_of_In.
Qed.

Lemma elem_of_filter {A} (P : A -> bool) (l : list A) a :
  a ∈ List.filter P l <-> a ∈ l /\ P a = true.
Proof. rewrite !list_elem_of_In. apply filter_In. Qed.


Lemma chronological_analyzed speedline :
  chronological (frames speedline) -> chronological (analyzedFrames speedline).
Proof. apply StronglySorted_filter. Qed.


Lemma frameForTimestamp_last speedline context :
  frameForTimestamp speedline context NUMBER_OF_THUMBNAILS
  = last (analyzedFrames speedline).
Proof.
  unfold frameForTimestamp. rewrite Z.eqb_refl, last_lookup.
  now rewrite Nat.sub_1_r.
Qed.

Lemma frameForTimestamp_scan speedline context i :
  i <> NUMBER_OF_THUMBNAILS ->
  frameForTimestamp speedline context i
  = last (List.filter
            (fun frame => le (getTimeStamp frame) (targetTimestamp speedline context i))
            (analyzedFrames speedline)).
Proof.
  intros Hi. unfold frameForTimestamp.
  apply Z.eqb_neq in Hi. rewrite Hi, fold_keep_last.
  now destruct (last _).
Qed.

Lemma frameForTimestamp_analyzed speedline context i frame :
  frameForTimestamp speedline context i = Some frame ->
  frame ∈ analyzedFrames speedline.
Proof.
  destruct (Z.eq_dec i NUMBER_OF_THUMBNAILS) as [-> | Hi].
  - rewrite frameForTimestamp_last. apply last_Some_elem_of.
  - rewrite frameForTimestamp_scan by done. intros Hlast.
    apply last_Some_elem_of, elem_of_filter in Hlast. tauto.
Qed.

Lemma buckets_eq : buckets = [1; 2; 3; 4; 5; 6; 7; 8; 9; 10].
Proof. reflexivity. Qed.

Lemma guard_passes `{Jpeg} speedline context mode :
  analyzedFrames speedline <> [] ->
  isFinite (timelineEnd speedline context) = true ->
  _audit {| traces := Returned speedline; gatherMode := mode |} context
  = (exec for_each (bucket speedline context) buckets ;;
     filmstrip speedline context) initial.
Proof.
  intros Hne Hfin. unfold _audit, _audit_body, bind, call. cbn [traces].
  rewrite Hfin. destruct (analyzedFrames speedline); [done | reflexivity].
Qed.

End Sampler.



(** ** The loop over the buckets *)

Section Loop.
Context `{Jpeg}.

(** The four ways an iteration can go. *)
Lemma bucket_unfold speedline context i st :
  bucket speedline context i st
  = match frameForTimestamp speedline context i with
    | None => (st, Thrown null_frame)
    | Some frame =>
        let cachedThumbnail := cachedThumbnails st !! frame_id frame in
        if truthy_string cachedThumbnail
        then ({| cachedThumbnails := cachedThumbnails st;
                 thumbnails :=
                   thumbnails st
                   ++ [thumbnail speedline context i (default EmptyString cachedThumbnail)];
                 work := work st |}, Returned tt)
        else
          match scaleImageToThumbnail (getParsedImage frame) with
          | Thrown err =>
              ({| cachedThumbnails := cachedThumbnails st;
                  thumbnails := thumbnails st;
                  work := Scaled (frame_id frame) :: work st |}, Thrown err)
          | Returned thumbnailImageData =>
              let base64Data := encode_base64 thumbnailImageData (of_Z 90) in
              ({| cachedThumbnails := <[frame_id frame := base64Data]> (cachedThumbnails st);
                  thumbnails := thumbnails st ++ [thumbnail speedline context i base64Data];
                  work := Encoded (frame_id frame) :: Scaled (frame_id frame) :: work st |},
               Returned tt)
          end
    end.
Proof.
  unfold bucket, base64Data, bind, get_cached, throw, ret, push, record,
    set_cached, call.
  destruct (frameForTimestamp speedline context i) as [frame |]; [| reflexivity].
  cbn zeta. destruct (truthy_string (cachedThumbnails st !! frame_id frame));
    [reflexivity |].
  cbn [cachedThumbnails thumbnails work].
  now destruct (scaleImageToThumbnail (getParsedImage frame)).
Qed.

Lemma scaleImageToThumbnail_Thrown imageData err :
  scaleImageToThumbnail imageData = Thrown err -> err_code err = None.
Proof.
  unfold scaleImageToThumbnail.
  destruct (new_Uint8Array _) as [outPixels | e] eqn:E; [discriminate |].
  intros [= <-]. unfold new_Uint8Array in E.
  repeat case_match; try discriminate; now injection E as <-.
Qed.

Lemma bucket_Thrown speedline context i st st' err :
  bucket speedline context i st = (st', Thrown err) ->
  err_code err = None /\ cachedThumbnails st' = cachedThumbnails st
  /\ thumbnails st' = thumbnails st.
Proof.
  rewrite bucket_unfold.
  destruct (frameForTimestamp speedline context i) as [frame |].
  - cbn zeta. destruct (truthy_string _); [discriminate |].
    destruct (scaleImageToThumbnail (getParsedImage frame)) as [t | e] eqn:E;
      [discriminate |].
    intros Heq. injection Heq as <- <-.
    split; [| done]. now apply scaleImageToThumbnail_Thrown in E.
  - intros Heq. injection Heq as <- <-. done.
Qed.

Lemma for_each_cons {A} (body : A -> Build unit) a l st :
  for_each body (a :: l) st
  = match body a st with
    | (st', Returned _) => for_each body l st'
    | (st', Thrown err) => (st', Thrown err)
    end.
Proof. reflexivity. Qed.

(** A loop that throws does so in one of its iterations. *)
Lemma for_each_Thrown {A} (body : A -> Build unit) l st st' err :
  for_each body l st = (st', Thrown err) ->
  exists a st0, a ∈ l /\ body a st0 = (st', Thrown err).
Proof.
  revert st. induction l as [| a l IH]; intros st; [discriminate |].
  rewrite for_each_cons. destruct (body a st) as [st1 [[] | e]] eqn:E.
  - intros Hrest. destruct (IH _ Hrest) as (b & st0 & Hb & Hbody).
    exists b, st0. split; [now apply list_elem_of_further | exact Hbody].
  - intros [= <- <-]. exists a, st. split; [apply list_elem_of_here | exact E].
Qed.

Lemma for_each_Thrown_code speedline context l st st' err :
  for_each (bucket speedline context) l st = (st', Thrown err) ->
  err_code err = None.
Proof.
  intros Hrun. apply for_each_Thrown in Hrun as (i & st0 & _ & Hbody).
  now apply bucket_Thrown in Hbody.
Qed.

(** Invariants of the loop, on the runs that throw and on those that do not. *)
Lemma for_each_invariant {A} (body : A -> Build unit) (I : BuildState -> Prop)
    l st st' o :
  (forall a st st1, a ∈ l -> I st -> body a st = (st1, Returned tt) -> I st1) ->
  I st ->
  for_each body l st = (st', o) ->
  match o with
  | Returned _ => I st'
  | Thrown err => exists a st0, a ∈ l /\ I st0 /\ body a st0 = (st', Thrown err)
  end.
Proof.
  revert st. induction l as [| a l IH]; intros st Hstep HI.
  - intros [= <- <-]. exact HI.
  - rewrite for_each_cons. destruct (body a st) as [st1 [[] | e]] eqn:E.
    + intros Hrest.
      assert (HI1 : I st1) by (eapply Hstep; [apply list_elem_of_here | exact HI | exact E]).
      specialize (IH st1 (fun b s s1 Hb => Hstep b s s1 (list_elem_of_further _ _ _ Hb))
                     HI1 Hrest).
      destruct o as [u | err]; [exact IH |].
      destruct IH as (b & st0 & Hb & HI0 & Hbody).
      exists b, st0. split; [now apply list_elem_of_further | done].
    + intros [= <- <-]. exists a, st.
      split; [apply list_elem_of_here | done].
Qed.

Lemma _audit_rejected artifacts context err :
  traces artifacts = Thrown err -> _audit artifacts context = (initial, Thrown err).
Proof. intros E. unfold _audit, _audit_body, bind, call. now rewrite E. Qed.

Lemma _audit_guard speedline context mode :
  analyzedFrames speedline = [] \/ isFinite (timelineEnd speedline context) = false ->
  _audit {| traces := Returned speedline; gatherMode := mode |} context
  = (initial, Thrown (LighthouseError INVALID_SPEEDLINE)).
Proof.
  intros Hguard. unfold _audit, _audit_body, bind, call, throw. cbn [traces].
  destruct Hguard as [-> | ->]; [reflexivity |].
  now rewrite orb_true_r.
Qed.

Lemma guard_cases speedline context :
  (analyzedFrames speedline = [] \/ isFinite (timelineEnd speedline context) = false)
  \/ (analyzedFrames speedline <> [] /\ isFinite (timelineEnd speedline context) = true).
Proof.
  destruct (analyzedFrames speedline); [left; now left |].
  destruct (isFinite (timelineEnd speedline context)); [right | left; now right].
  done.
Qed.

Lemma has_noFramesErrors code :
  has noFramesErrors code = true
  <-> code = Some "NO_SCREENSHOTS" \/ code = Some "SPEEDINDEX_OF_ZERO"
      \/ code = Some "NO_SPEEDLINE_FRAMES" \/ code = Some "INVALID_SPEEDLINE".
Proof.
  unfold has, noFramesErrors. destruct code as [c |].
  - rewrite bool_decide_eq_true, !elem_of_union, !elem_of_singleton.
    cbn [definition_code]. split.
    + intros [[[-> | ->] | ->] | ->]; tauto.
    + intros [[= ->] | [[= ->] | [[= ->] | [= ->]]]]; tauto.
  - split; [discriminate |]. intros [? | [? | [? | ?]]]; discriminate.
Qed.

End Loop.

(** ** Failures *)

(** C3. For every error the build throws: if its code is one of the four
    no-frames codes and the gather mode is 'timespan', [audit] returns
    [{notApplicable: true, score: 1}]; for every other code, or when the mode
    is 'navigation', [audit] throws the same error. *)
Theorem audit_classifies_errors `{Jpeg} artifacts context st err :
  _audit artifacts context = (st, Thrown err) ->
  let no_frames :=
    err_code err = Some (definition_code NO_SCREENSHOTS)
    \/ err_code err = Some (definition_code SPEEDINDEX_OF_ZERO)
    \/ err_code err = Some (definition_code NO_SPEEDLINE_FRAMES)
    \/ err_code err = Some (definition_code INVALID_SPEEDLINE) in
  (no_frames -> gatherMode artifacts = "timespan" ->
   audit artifacts context
   = (st, Returned {| Product.score := of_Z 1;
                      Product.notApplicable := Some true;
                      Product.details := None |}))
  /\ (~ no_frames \/ gatherMode artifacts = "navigation" ->
      audit artifacts context = (st, Thrown err)).
Proof.
  intros Hrun no_frames. unfold audit. rewrite Hrun. split.
  - intros Hcode ->. apply has_noFramesErrors in Hcode. now rewrite Hcode.
  - intros [Hcode | ->].
    + destruct (has noFramesErrors (err_code err)) eqn:E; [| reflexivity].
      apply has_noFramesErrors in E. contradiction.
    + now rewrite andb_false_r.
Qed.

(** The claim on a timeline source that finds no screenshots: not applicable
    in a timespan, the same error in a navigation. *)
Lemma audit_classifies_errors_witness :
  @audit Samples.jpeg (Samples.timespan (Thrown (LighthouseError NO_SCREENSHOTS)))
    Samples.default_context
  = (initial, Returned not_applicable)
  /\ @audit Samples.jpeg (Samples.navigation (Thrown (LighthouseError NO_SCREENSHOTS)))
       Samples.default_context
     = (initial, Thrown (LighthouseError NO_SCREENSHOTS)).
Proof.
  split.
  - apply (@audit_classifies_errors Samples.jpeg
             (Samples.timespan (Thrown (LighthouseError NO_SCREENSHOTS)))
             Samples.default_context initial (LighthouseError NO_SCREENSHOTS));
      [reflexivity | left; reflexivity | reflexivity].
  - apply (@audit_classifies_errors Samples.jpeg
             (Samples.navigation (Thrown (LighthouseError NO_SCREENSHOTS)))
             Samples.default_context initial (LighthouseError NO_SCREENSHOTS));
      [reflexivity | right; reflexivity].
Defined.

(** C7. Once the timeline is there, the build fails with the code of
    [INVALID_SPEEDLINE] if and only if there is no analyzed frame or the
    computed [timelineEnd] is not finite; the error is then thrown with the
    variables of the build as they were created: nothing cached, no
    thumbnail, no scaling or encoding call made. *)
Theorem invalid_timeline_iff `{Jpeg} speedline context mode :
  let result :=
    _audit {| traces := Returned speedline; gatherMode := mode |} context in
  ((exists err,
      result.2 = Thrown err
      /\ err_code err = Some (definition_code INVALID_SPEEDLINE))
   <-> (analyzedFrames speedline = []
        \/ isFinite (timelineEnd speedline context) = false))
  /\ (forall err,
        result.2 = Thrown err ->
        err_code err = Some (definition_code INVALID_SPEEDLINE) ->
        err = LighthouseError INVALID_SPEEDLINE
        /\ result.1 = initial /\ work result.1 = []).
Proof.
  intros result.
  assert (Hloop : forall err,
            analyzedFrames speedline <> [] ->
            isFinite (timelineEnd speedline context) = true ->
            result.2 = Thrown err -> err_code err = None).
  { intros err Hne Hfin. unfold result. rewrite guard_passes by done.
    unfold bind.
    destruct (for_each (bucket speedline context) buckets initial)
      as [st [[] | e]] eqn:E; [discriminate |].
    cbn [snd]. intros [= <-]. now apply for_each_Thrown_code in E. }
  destruct (guard_cases speedline context) as [Hguard | [Hne Hfin]].
  - assert (E : result = (initial, Thrown (LighthouseError INVALID_SPEEDLINE)))
      by now apply _audit_guard.
    rewrite E. cbn [fst snd]. split.
    + split; [intros _; exact Hguard |]. intros _. now eexists.
    + intros err [= <-] _. done.
  - split.
    + split.
      * intros (err & Herr & Hcode). rewrite (Hloop err) in Hcode by done.
        discriminate.
      * intros [Hempty | Hinf]; [contradiction | congruence].
    + intros err Herr Hcode. rewrite (Hloop err) in Hcode by done. discriminate.
Qed.

(** The claim on a timeline of interpolated frames only: [INVALID_SPEEDLINE],
    thrown before any work. *)
Lemma invalid_timeline_iff_witness :
  let result :=
    @_audit Samples.jpeg (Samples.navigation (Returned Samples.interpolated_timeline))
      Samples.default_context in
  result.2 = Thrown (LighthouseError INVALID_SPEEDLINE) /\ work result.1 = [].
Proof.
  destruct (@invalid_timeline_iff Samples.jpeg Samples.interpolated_timeline
              Samples.default_context "navigation") as [[_ Hif] Honly].
  destruct Hif as (err & Herr & Hcode); [left; reflexivity |].
  destruct (Honly err Herr Hcode) as (-> & _ & Hwork).
  split; [exact Herr | exact Hwork].
Defined.




(** ** The end of the timeline *)

Section TimelineEnd.

Lemma le_total a b : a <> NaN -> b <> NaN -> le a b = false -> le b a = true.
Proof.
  destruct a, b; simpl; try congruence. intros _ _ Hab.
  apply Qle_bool_iff. apply Qlt_le_weak, Qnot_le_lt. intros Hle.
  apply Qle_bool_iff in Hle. congruence.
Qed.

Lemma max2_spec a b :
  a <> NaN -> b <> NaN ->
  max2 a b <> NaN /\ le a (max2 a b) = true /\ le b (max2 a b) = true
  /\ (max2 a b = a \/ max2 a b = b).
Proof.
  intros Ha Hb. unfold max2.
  destruct a as [| | | x] eqn:Ea; try congruence;
    destruct b as [| | | y] eqn:Eb; try congruence;
    destruct (le _ _) eqn:E;
    repeat split; try congruence; try tauto; try reflexivity;
    try exact E; try (apply le_refl; discriminate);
    try (apply le_total; [discriminate | discriminate | exact E]).
  all: try (simpl in E; discriminate E).
Qed.

(** [Math.max] of numbers none of which is [NaN]: an upper bound of its
    arguments, and one of them when there is any. *)
Lemma max_list_spec xs :
  Forall (fun x => x <> NaN) xs ->
  Forall (fun x => le x (max_list xs) = true) xs
  /\ (xs <> [] -> max_list xs ∈ xs).
Proof.
  intros Hxs. unfold max_list.
  assert (Hgen : forall acc, acc <> NaN ->
            let r := foldl max2 acc xs in
            r <> NaN /\ le acc r = true
            /\ Forall (fun x => le x r = true) xs
            /\ (r = acc \/ r ∈ xs)).
  { induction Hxs as [| x xs Hx Hxs IH]; intros acc Hacc.
    - cbn. split; [done |]. split; [now apply le_refl |]. split; [constructor | now left].
    - cbn [foldl]. destruct (max2_spec acc x Hacc Hx) as (Hm & Ham & Hxm & Hor).
      destruct (IH (max2 acc x) Hm) as (Hr & Hmr & Hall & Hin).
      cbn zeta. split; [exact Hr |].
      split; [eapply le_trans; eassumption |].
      split; [constructor; [eapply le_trans; eassumption | exact Hall] |].
      destruct Hin as [-> | Hin]; [| right; now apply list_elem_of_further].
      destruct Hor as [-> | ->]; [now left | right; apply list_elem_of_here]. }
  destruct (Hgen NInf ltac:(discriminate)) as (_ & _ & Hall & Hin).
  split; [exact Hall |]. intros Hne. destruct Hin as [E | Hin]; [| exact Hin].
  destruct xs as [| x xs]; [done |]. apply Forall_cons in Hall as [Hx _].
  rewrite E in Hx |- *. destruct x; try discriminate. apply list_elem_of_here.
Qed.

End TimelineEnd.

(** C6, as stated, fails twice.  A completion of zero is not null, yet the
    code falls back on the frames: with a last frame at 1500 ms and a minimum
    of 1000 ms the timeline ends at 1500, not at [max(0, 1000)].  And a
    completion of 5000 does not give 5000 regardless of the minimum: under a
    minimum of 20000 ms the timeline ends at 20000. *)
Lemma timelineEnd_not_as_specified :
  timelineEnd Samples.complete_at_zero (Samples.minimum 1000) = of_Z 1500
  /\ spec_timelineEnd Samples.complete_at_zero (Samples.minimum 1000) = of_Z 1000
  /\ eqb (timelineEnd Samples.complete_at_zero (Samples.minimum 1000))
         (spec_timelineEnd Samples.complete_at_zero (Samples.minimum 1000)) = false
  /\ complete Samples.complete_at_5000 = Some (of_Z 5000)
  /\ timelineEnd Samples.complete_at_5000 (Samples.minimum 20000) = of_Z 20000
  /\ eqb (timelineEnd Samples.complete_at_5000 (Samples.minimum 20000)) (of_Z 5000)
     = false.
Proof. repeat split; vm_compute; reflexivity. Qed.

(** C6, amended. [timelineEnd] is [Math.max(maxFrameTime, minimum)], where
    [minimum] is the configured minimum duration, 3000 when it is missing or
    falsy, and [maxFrameTime] is [complete] when [complete] is truthy (not
    null, zero or [NaN]) and otherwise the maximum over all frames of
    [timestamp - beginning].  With no completion, a maximum relative frame
    time of 1500 and the default minimum, [timelineEnd] is 3000; with a
    completion of 5000, [timelineEnd] is 5000 for every minimum up to 5000
    and is the minimum when that is larger. *)
Theorem timelineEnd_spec speedline context :
  let relative :=
    (fun frame => sub (getTimeStamp frame) (beginning speedline))
      <$> frames speedline in
  let minimum := or_else (minimumTimelineDuration context) (of_Z 3000) in
  timelineEnd speedline context = max2 (maxFrameTime speedline) minimum
  /\ (forall configured,
        minimumTimelineDuration context = Some configured ->
        truthy configured = true -> minimum = configured)
  /\ (minimumTimelineDuration context = None -> minimum = of_Z 3000)
  /\ (forall completion,
        complete speedline = Some completion -> truthy completion = true ->
        maxFrameTime speedline = completion)
  /\ (complete speedline = None
      \/ (exists completion,
            complete speedline = Some completion /\ truthy completion = false) ->
      maxFrameTime speedline = max_list relative)
  /\ (Forall (fun x => x <> NaN) relative ->
      Forall (fun x => le x (max_list relative) = true) relative
      /\ (relative <> [] -> max_list relative ∈ relative))
  /\ (complete speedline = None -> eqb (max_list relative) (of_Z 1500) = true ->
      minimumTimelineDuration context = None ->
      timelineEnd speedline context = of_Z 3000)
  /\ (complete speedline = Some (of_Z 5000) ->
      (le minimum (of_Z 5000) = true ->
       eqb (timelineEnd speedline context) (of_Z 5000) = true)
      /\ (lt (of_Z 5000) minimum = true -> timelineEnd speedline context = minimum)).
Proof.
  intros relative minimum.
  split; [reflexivity |].
  split. { intros configured Hc Ht. unfold minimum, or_else. now rewrite Hc, Ht. }
  split. { intros Hc. unfold minimum. now rewrite Hc. }
  split. { intros completion Hc Ht. unfold maxFrameTime, or_else. now rewrite Hc, Ht. }
  split.
  { intros [Hc | (completion & Hc & Ht)]; unfold maxFrameTime, or_else; rewrite Hc;
      [reflexivity | now rewrite Ht]. }
  split; [apply max_list_spec |].
  split.
  { intros Hc Hmax Hmin. unfold timelineEnd, maxFrameTime. rewrite Hc, Hmin.
    cbn [or_else]. fold relative.
    destruct (max_list relative) as [| | | q]; try discriminate.
    cbn [eqb] in Hmax. apply Qeq_bool_iff in Hmax.
    unfold max2, of_Z.
    assert (le (Fin q) (Fin (inject_Z 3000)) = true) as ->; [| reflexivity].
    apply le_Fin. rewrite Hmax. unfold Qle. simpl. lia. }
  intros Hc. unfold timelineEnd, maxFrameTime. rewrite Hc.
  change (or_else (Some (of_Z 5000)) _) with (of_Z 5000). fold minimum.
  unfold max2, of_Z. destruct minimum as [| | | m]; split; try discriminate;
    try reflexivity.
  - intros Hle. destruct (le (Fin (inject_Z 5000)) (Fin m)) eqn:E; [| reflexivity].
    apply le_Fin in Hle, E. apply Qeq_bool_iff. now apply Qle_antisym.
  - intros Hlt. apply lt_Fin, Qlt_le_weak, le_Fin in Hlt. now rewrite Hlt.
Qed.

(** The amended claim on the sample timelines: 2900 ms of frames under the
    default minimum end at 3000; a completion of 5000 gives 5000 under the
    default minimum and 20000 under a minimum of 20000. *)
Lemma timelineEnd_spec_witness :
  eqb (timelineEnd Samples.complete_at_5000 Samples.default_context) (of_Z 5000) = true
  /\ timelineEnd Samples.complete_at_5000 (Samples.minimum 20000) = of_Z 20000
  /\ maxFrameTime Samples.complete_at_zero = of_Z 1500.
Proof.
  destruct (timelineEnd_spec Samples.complete_at_5000 Samples.default_context)
    as (_ & _ & _ & _ & _ & _ & _ & H5000).
  destruct (timelineEnd_spec Samples.complete_at_5000 (Samples.minimum 20000))
    as (_ & Hmin & _ & _ & _ & _ & _ & H20000).
  destruct (timelineEnd_spec Samples.complete_at_zero Samples.default_context)
    as (_ & _ & _ & _ & Hzero & _).
  split; [apply (proj1 (H5000 eq_refl)); reflexivity |].
  split.
  - rewrite (proj2 (H20000 eq_refl)) by reflexivity.
    now apply Hmin.
  - rewrite Hzero; [reflexivity |]. right. now exists (of_Z 0).
Defined.

(** ** Successful builds *)

Section Success.
Context `{Jpeg}.

(** A loop that does not throw pushes one thumbnail per bucket, in order.
    [I] is an invariant of the build state; [R st i payload] relates a bucket
    and the payload of its thumbnail and is kept by later iterations. *)
Lemma for_each_bucket_Returned speedline context
    (I : BuildState -> Prop) (R : BuildState -> Z -> string -> Prop) l :
  (forall i st st1,
     I st -> bucket speedline context i st = (st1, Returned tt) ->
     exists payload,
       thumbnails st1 = thumbnails st ++ [thumbnail speedline context i payload]
       /\ I st1 /\ R st1 i payload
       /\ forall j q, R st j q -> R st1 j q) ->
  forall st st',
    I st ->
    for_each (bucket speedline context) l st = (st', Returned tt) ->
    exists payloads,
      thumbnails st'
      = thumbnails st ++ zip_with (thumbnail speedline context) l payloads
      /\ I st' /\ Forall2 (R st') l payloads
      /\ forall j q, R st j q -> R st' j q.
Proof.
  intros Hstep. induction l as [| i l IH]; intros st st' HI.
  - intros [= <-]. exists []. rewrite app_nil_r. repeat split; [done | constructor | done].
  - rewrite for_each_cons.
    destruct (bucket speedline context i st) as [st1 [[] | e]] eqn:E; [| discriminate].
    intros Hrest.
    destruct (Hstep i st st1 HI E) as (payload & Hpush & HI1 & HR & Hkeep).
    destruct (IH st1 st' HI1 Hrest) as (payloads & Hitems & HI' & HRs & Hkeep').
    exists (payload :: payloads). split; [| split; [exact HI' | split]].
    + rewrite Hitems, Hpush, <- app_assoc. reflexivity.
    + constructor; [now apply Hkeep' | exact HRs].
    + intros j q HRj. now apply Hkeep', Hkeep.
Qed.

(** The same, for the ten buckets of a build, bucket by bucket. *)
Lemma build_Returned speedline context mode
    (I : BuildState -> Prop) (R : BuildState -> Z -> string -> Prop) st product :
  (forall i st st1,
     I st -> bucket speedline context i st = (st1, Returned tt) ->
     exists payload,
       thumbnails st1 = thumbnails st ++ [thumbnail speedline context i payload]
       /\ I st1 /\ R st1 i payload
       /\ forall j q, R st j q -> R st1 j q) ->
  I initial ->
  _audit {| traces := Returned speedline; gatherMode := mode |} context
  = (st, Returned product) ->
  product = {| Product.score := of_Z 1;
               Product.notApplicable := None;
               Product.details :=
                 Some {| Details.type := "filmstrip";
                         Details.scale := timelineEnd speedline context;
                         Details.items := thumbnails st |} |}
  /\ analyzedFrames speedline <> []
  /\ isFinite (timelineEnd speedline context) = true
  /\ length (thumbnails st) = 10%nat
  /\ I st
  /\ forall i, 1 <= i <= 10 ->
       exists payload,
         R st i payload
         /\ thumbnails st !! Z.to_nat (i - 1)
            = Some (thumbnail speedline context i payload).
Proof.
  intros Hstep HI Hrun.
  destruct (guard_cases speedline context) as [Hguard | [Hne Hfin]].
  { rewrite _audit_guard in Hrun by done. discriminate. }
  rewrite guard_passes in Hrun by done. unfold bind in Hrun.
  destruct (for_each (bucket speedline context) buckets initial)
    as [st1 [[] | e]] eqn:E; [| discriminate].
  unfold filmstrip in Hrun. injection Hrun as <- <-.
  destruct (for_each_bucket_Returned speedline context I R buckets Hstep
              initial st1 HI E) as (payloads & Hitems & HI' & HRs & _).
  cbn [thumbnails initial app] in Hitems.
  assert (Hlen : length payloads = 10%nat)
    by (apply Forall2_length in HRs; now rewrite <- HRs).
  split; [reflexivity |]. split; [exact Hne |]. split; [exact Hfin |].
  split. { rewrite Hitems, length_zip_with, Hlen. reflexivity. }
  split; [exact HI' |].
  intros i Hi.
  assert (Hi' : buckets !! Z.to_nat (i - 1) = Some i).
  { unfold buckets, NUMBER_OF_THUMBNAILS. rewrite lookup_seqZ. split; lia. }
  destruct (Forall2_lookup_l _ _ _ _ _ HRs Hi') as (payload & Hp & HR).
  exists payload. split; [exact HR |].
  rewrite Hitems, lookup_zip_with, Hi'. cbn. now rewrite Hp.
Qed.


End Success.




(** ** The cache *)

Section Cache.
Context `{Jpeg}.
Hypothesis encode_nonempty :
  forall image quality, encode_base64 image quality <> EmptyString.

Lemma truthy_string_Some s : truthy_string (Some s) = true <-> s <> EmptyString.
Proof.
  cbn. rewrite negb_true_iff. split.
  - intros E ->. now rewrite String.eqb_refl in E.
  - intros Hs. now apply String.eqb_neq.
Qed.

(** Under [cache_counted] a falsy cache entry is a missing one. *)
Lemma cache_counted_miss st id :
  cache_counted st -> truthy_string (cachedThumbnails st !! id) = false ->
  cachedThumbnails st !! id = None.
Proof.
  intros Hst Hfalsy. specialize (Hst id).
  destruct (cachedThumbnails st !! id) as [s |]; [| reflexivity].
  destruct Hst as [Hs _]. apply truthy_string_Some in Hs. congruence.
Qed.

Lemma count_occ_cons_decide (w w' : Work) l :
  count_occ Work_eq_dec (w' :: l) w
  = if decide (w' = w) then S (count_occ Work_eq_dec l w)
    else count_occ Work_eq_dec l w.
Proof. cbn [count_occ]. destruct (Work_eq_dec w' w); now case_decide. Qed.

Lemma bucket_counted speedline context i st st1 :
  cache_counted st ->
  bucket speedline context i st = (st1, Returned tt) ->
  exists payload,
    thumbnails st1 = thumbnails st ++ [thumbnail speedline context i payload]
    /\ cache_counted st1
    /\ (exists frame,
          frameForTimestamp speedline context i = Some frame
          /\ cachedThumbnails st1 !! frame_id frame = Some payload)
    /\ forall j q,
         (exists frame,
            frameForTimestamp speedline context j = Some frame
            /\ cachedThumbnails st !! frame_id frame = Some q) ->
         exists frame,
           frameForTimestamp speedline context j = Some frame
           /\ cachedThumbnails st1 !! frame_id frame = Some q.
Proof.
  intros Hst. rewrite bucket_unfold.
  destruct (frameForTimestamp speedline context i) as [frame |] eqn:Hsel;
    [| discriminate].
  cbn zeta.
  destruct (truthy_string (cachedThumbnails st !! frame_id frame)) eqn:Htruthy.
  - destruct (cachedThumbnails st !! frame_id frame) as [s |] eqn:Hcache;
      [| discriminate].
    intros [= <-]. exists s. cbn [thumbnails cachedThumbnails default].
    split; [reflexivity |]. split; [exact Hst |].
    split; [now exists frame | done].
  - destruct (scaleImageToThumbnail (getParsedImage frame)) as [t | e] eqn:Hscale;
      [| discriminate].
    intros [= <-]. eexists. cbn [thumbnails cachedThumbnails].
    split; [reflexivity |].
    assert (Hmiss := cache_counted_miss st (frame_id frame) Hst Htruthy).
    split; [| split].
    + intros id. specialize (Hst id). unfold calls in *.
      cbn [cachedThumbnails work]. rewrite !count_occ_cons_decide.
      destruct (decide (frame_id frame = id)) as [<- | Hid].
      * rewrite lookup_insert_eq. rewrite Hmiss in Hst. destruct Hst as [-> ->].
        split; [apply encode_nonempty |].
        repeat case_decide; done.
      * rewrite lookup_insert_ne by done.
        repeat case_decide; congruence.
    + exists frame. split; [reflexivity | apply lookup_insert_eq].
    + intros j q (g & Hg & Hq). exists g. split; [exact Hg |].
      rewrite lookup_insert_ne; [exact Hq |]. intros E. rewrite E in Hmiss.
      congruence.
Qed.

Lemma cache_counted_at_most_once st id :
  cache_counted st -> (calls (Scaled id) st <= 1 /\ calls (Encoded id) st <= 1)%nat.
Proof.
  intros Hst. specialize (Hst id).
  destruct (cachedThumbnails st !! id); destruct Hst as (? & ?); lia.
Qed.

Lemma bucket_Thrown_counted speedline context i st st' err id :
  cache_counted st ->
  bucket speedline context i st = (st', Thrown err) ->
  (calls (Scaled id) st' <= 1 /\ calls (Encoded id) st' <= 1)%nat.
Proof.
  intros Hst. rewrite bucket_unfold.
  destruct (frameForTimestamp speedline context i) as [frame |].
  - cbn zeta.
    destruct (truthy_string (cachedThumbnails st !! frame_id frame)) eqn:Htruthy;
      [discriminate |].
    destruct (scaleImageToThumbnail (getParsedImage frame)); [discriminate |].
    intros [= <- <-].
    assert (Hmiss := cache_counted_miss st (frame_id frame) Hst Htruthy).
    destruct (cache_counted_at_most_once st id Hst) as [Hs He].
    specialize (Hst (frame_id frame)). rewrite Hmiss in Hst.
    unfold calls in *. cbn [work]. rewrite !count_occ_cons_decide.
    case_decide as Heq; [| case_decide; [discriminate | lia]].
    injection Heq as <-. case_decide; [discriminate | lia].
  - intros [= <- <-]. now apply cache_counted_at_most_once.
Qed.

Lemma cache_counted_initial : cache_counted initial.
Proof. intros id. cbn. now rewrite lookup_empty. Qed.

End Cache.

(** C4. Within one build (the encoder giving, as a JPEG encoder does, a
    payload that is never empty) each frame is scaled at most once and
    encoded at most once; when the build succeeds, the frame selected for a
    bucket has been scaled exactly once and encoded exactly once, however
    many buckets selected it, the thumbnail of the bucket carries the payload
    cached for the frame, and two buckets that resolve to the same frame
    carry the same data. *)
Theorem frames_encoded_once `{Jpeg} artifacts context :
  (forall image quality, encode_base64 image quality <> EmptyString) ->
  let st := (_audit artifacts context).1 in
  (forall id, (calls (Scaled id) st <= 1 /\ calls (Encoded id) st <= 1)%nat)
  /\ forall speedline product,
       traces artifacts = Returned speedline ->
       (_audit artifacts context).2 = Returned product ->
       exists items,
         Product.details product
         = Some {| Details.type := "filmstrip";
                   Details.scale := timelineEnd speedline context;
                   Details.items := items |}
         /\ (forall i, 1 <= i <= 10 ->
               exists frame base64Data,
                 frameForTimestamp speedline context i = Some frame
                 /\ calls (Scaled (frame_id frame)) st = 1%nat
                 /\ calls (Encoded (frame_id frame)) st = 1%nat
                 /\ cachedThumbnails st !! frame_id frame = Some base64Data
                 /\ items !! Z.to_nat (i - 1)
                    = Some (thumbnail speedline context i base64Data))
         /\ (forall i j frame_i frame_j item_i item_j,
               1 <= i <= 10 -> 1 <= j <= 10 ->
               frameForTimestamp speedline context i = Some frame_i ->
               frameForTimestamp speedline context j = Some frame_j ->
               frame_id frame_i = frame_id frame_j ->
               items !! Z.to_nat (i - 1) = Some item_i ->
               items !! Z.to_nat (j - 1) = Some item_j ->
               Item.data item_i = Item.data item_j).
Proof.
  intros Hnonempty st. destruct artifacts as [request mode].
  assert (Hstep := fun speedline i st0 st1 =>
            bucket_counted Hnonempty speedline context i st0 st1).
  split.
  - intros id. subst st. destruct request as [speedline | err].
    + destruct (guard_cases speedline context) as [Hguard | [Hne Hfin]].
      { rewrite _audit_guard by done. unfold calls. cbn. lia. }
      rewrite guard_passes by done. unfold bind.
      destruct (for_each (bucket speedline context) buckets initial)
        as [st1 o] eqn:E.
      pose proof (for_each_invariant (bucket speedline context) cache_counted
                    buckets initial st1 o) as Hinv.
      destruct o as [[] | e]; cbn [fst filmstrip].
      * apply cache_counted_at_most_once, Hinv; [| apply cache_counted_initial | exact E].
        intros i s s1 _ Hs Hbody.
        destruct (Hstep speedline i s s1 Hs Hbody) as (_ & _ & Hs1 & _). exact Hs1.
      * destruct Hinv as (i & st0 & _ & Hst0 & Hbody);
          [| apply cache_counted_initial | exact E |].
        { intros i s s1 _ Hs Hbody.
          destruct (Hstep speedline i s s1 Hs Hbody) as (_ & _ & Hs1 & _). exact Hs1. }
        exact (bucket_Thrown_counted speedline context i st0 st1 e id Hst0 Hbody).
    + rewrite _audit_rejected with (err := err) by reflexivity.
      unfold calls. cbn. lia.
  - intros speedline product Htraces Hrun. cbn [traces] in Htraces. subst request.
    assert (E : _audit {| traces := Returned speedline; gatherMode := mode |} context
                = (st, Returned product)).
    { subst st. rewrite <- Hrun. now destruct (_audit _ _). }
    destruct (build_Returned speedline context mode cache_counted
                (fun s i payload =>
                   exists frame,
                     frameForTimestamp speedline context i = Some frame
                     /\ cachedThumbnails s !! frame_id frame = Some payload)
                st product (Hstep speedline) cache_counted_initial E)
      as (-> & _ & _ & _ & Hst & Hitems).
    exists (thumbnails st). split; [reflexivity |]. split.
    + intros i Hi.
      destruct (Hitems i Hi) as (payload & (frame & Hsel & Hcache) & Hitem).
      exists frame, payload. split; [exact Hsel |].
      specialize (Hst (frame_id frame)). rewrite Hcache in Hst.
      destruct Hst as (_ & Hs & He). done.
    + intros i j frame_i frame_j item_i item_j Hi Hj Hsel_i Hsel_j Hid Hitem_i Hitem_j.
      destruct (Hitems i Hi) as (p & (f & Hf & Hp) & Hip).
      destruct (Hitems j Hj) as (q & (g & Hg & Hq) & Hjq).
      rewrite Hsel_i in Hf. injection Hf as <-.
      rewrite Hsel_j in Hg. injection Hg as <-.
      rewrite Hid, Hq in Hp. injection Hp as <-.
      rewrite Hitem_i in Hip. injection Hip as ->.
      rewrite Hitem_j in Hjq. injection Hjq as ->.
      reflexivity.
Qed.

(** The claim on the sample timeline: three frames are selected by the ten
    buckets and each is scaled and encoded once; the interpolated frame
    never is. *)
Lemma frames_encoded_once_witness :
  let st := (@_audit Samples.jpeg (Samples.navigation (Returned Samples.timeline))
               Samples.default_context).1 in
  (forall id, (calls (Encoded id) st <= 1)%nat)
  /\ (exists frame,
        frameForTimestamp Samples.timeline Samples.default_context 7 = Some frame
        /\ calls (Encoded (frame_id frame)) st = 1%nat)
  /\ work st = [Encoded 4; Scaled 4; Encoded 3; Scaled 3; Encoded 1; Scaled 1]%positive.
Proof.
  intros st.
  destruct (@frames_encoded_once Samples.jpeg
              (Samples.navigation (Returned Samples.timeline))
              Samples.default_context) as [Hmost Hsuccess].
  { intros image quality. cbn. discriminate. }
  split; [intros id; apply Hmost |].
  destruct (Hsuccess Samples.timeline Samples.filmstrip_of_timeline)
    as (items & _ & Hitems & _); [reflexivity | vm_compute; reflexivity |].
  split; [| vm_compute; reflexivity].
  destruct (Hitems 7) as (frame & payload & Hsel & _ & Hencoded & _); [lia |].
  exists frame. split; [exact Hsel | exact Hencoded].
Defined.

(** ** Timings *)

Section Timings.





End Timings.




(** * Further properties *)

(** ** The scaler on any input *)

Section ScalerInvariant.

Lemma ta_set_length (array : list Byte.byte) pos value :
  length (ta_set array pos value) = length array.
Proof. unfold ta_set. destruct (to_index pos); [apply length_insert | reflexivity]. Qed.

Lemma copy_pixel_length imageData scaledWidth scaleFactor i j out :
  length (copy_pixel imageData scaledWidth scaleFactor i j out) = length out.
Proof. unfold copy_pixel. now rewrite !ta_set_length. Qed.

Lemma foldl_length {A B} (f : list A -> B -> list A) (l : list B) (out : list A) :
  (forall out b, length (f out b) = length out) ->
  length (foldl f out l) = length out.
Proof.
  intros Hf. revert out. induction l as [| b l IH]; intros out; [reflexivity |].
  cbn [foldl]. now rewrite IH, Hf.
Qed.

Lemma scale_loops_length imageData scaledWidth scaleFactor (columns rows : list Z) out :
  length (foldl (fun outPixels i =>
                   foldl (fun outPixels j =>
                            copy_pixel imageData scaledWidth scaleFactor i j outPixels)
                         outPixels rows)
                out columns)
  = length out.
Proof.
  apply foldl_length. intros o i. apply foldl_length. intros o' j.
  apply copy_pixel_length.
Qed.

Lemma floor_cases a :
  floor a = NaN \/ floor a = PInf \/ floor a = NInf \/ exists z, floor a = of_Z z.
Proof. destruct a; cbn; eauto. Qed.

Lemma new_Uint8Array_negative a z :
  int_value a z -> z < 0 ->
  new_Uint8Array a = Thrown (RangeError "Invalid typed array length").
Proof.
  intros (q & -> & Hq) Hz. unfold new_Uint8Array, truncate.
  assert (Qle_bool 0 q = false) as ->.
  { apply not_true_is_false. intros E. apply Qle_bool_iff in E.
    rewrite Hq in E. unfold Qle in E. simpl in E. lia. }
  assert (Qceiling q = z) as -> by (rewrite Hq; apply Qceiling_Z).
  assert ((z <? 0) = true) as -> by now apply Z.ltb_lt.
  reflexivity.
Qed.

(** The scaler allocates, then fills without changing the length. *)
Lemma scaleImageToThumbnail_shape imageData :
  exists fill : list Byte.byte -> list Byte.byte,
    (forall out, length (fill out) = length out)
    /\ scaleImageToThumbnail imageData
       = let scaledHeight :=
           floor (div (height imageData)
                      (div (width imageData) (of_Z THUMBNAIL_WIDTH))) in
         match new_Uint8Array
                 (mul (mul (of_Z THUMBNAIL_WIDTH) scaledHeight) (of_Z 4)) with
         | Thrown err => Thrown err
         | Returned outPixels =>
             Returned {| width := of_Z THUMBNAIL_WIDTH;
                         height := scaledHeight;
                         data := fill outPixels |}
         end.
Proof.
  eexists (fun out => foldl _ out _). split; [| reflexivity].
  intros out. apply scale_loops_length.
Qed.

(** What the scaler can return, whatever it is given. *)
Lemma scaleImageToThumbnail_Returned imageData thumbnail :
  scaleImageToThumbnail imageData = Returned thumbnail ->
  width thumbnail = of_Z 120
  /\ ((height thumbnail = NaN /\ data thumbnail = [])
      \/ exists outputHeight,
           0 <= outputHeight
           /\ height thumbnail = of_Z outputHeight
           /\ Z.of_nat (length (data thumbnail)) = 120 * outputHeight * 4).
Proof.
  destruct (scaleImageToThumbnail_shape imageData) as (fill & Hfill & ->).
  cbn zeta.
  destruct (floor_cases (div (height imageData)
                             (div (width imageData) (of_Z THUMBNAIL_WIDTH))))
    as [-> | [-> | [-> | [z ->]]]]; try discriminate.
  - cbn [mul new_Uint8Array]. intros Heq. injection Heq as <-.
    cbn [width height data]. split; [reflexivity |]. left. split; [reflexivity |].
    apply length_zero_iff_nil. now rewrite Hfill.
  - destruct (Z_lt_dec z 0) as [Hneg | Hpos].
    + rewrite (new_Uint8Array_negative _ (120 * z * 4))
        by solve [lia | int_value_tac].
      discriminate.
    + rewrite (new_Uint8Array_int _ (120 * z * 4)) by solve [lia | int_value_tac].
      intros Heq. injection Heq as <-. cbn [width height data].
      split; [reflexivity |].
      right. exists z. split; [lia |]. split; [reflexivity |].
      rewrite Hfill, length_replicate. lia.
Qed.

End ScalerInvariant.

Section ScalerIdentity.

(** Every index of a buffer of [120 * h * 4] bytes is a channel of a pixel. *)
Lemma position_pixel p h :
  0 <= p < 120 * h * 4 ->
  exists i j c,
    0 <= i < 120 /\ 0 <= j < h /\ 0 <= c < 4 /\ p = (j * 120 + i) * 4 + c.
Proof.
  intros Hp. exists (p / 4 mod 120), (p / 4 / 120), (p mod 4).
  pose proof (Z.mod_pos_bound (p / 4) 120 ltac:(lia)).
  pose proof (Z.mod_pos_bound p 4 ltac:(lia)).
  pose proof (Z.div_mod p 4 ltac:(lia)).
  pose proof (Z.div_mod (p / 4) 120 ltac:(lia)).
  assert (0 <= p / 4 / 120) by (apply Z.div_pos; [apply Z.div_pos |]; lia).
  assert (p / 4 / 120 < h).
  { apply Z.div_lt_upper_bound; [lia |]. apply Z.div_lt_upper_bound; lia. }
  repeat split; lia.
Qed.

(** A raster that is 120 wide already comes back as it is. *)
Lemma scaleImageToThumbnail_identity imageData h :
  width imageData = of_Z 120 -> height imageData = of_Z h -> 0 <= h ->
  Z.of_nat (length (data imageData)) = 120 * h * 4 ->
  scaleImageToThumbnail imageData = Returned imageData.
Proof.
  intros Hwidth Hheight Hh Hlen.
  destruct (scaleImageToThumbnail_spec imageData 120 h Hwidth Hheight)
    as (outPixels & -> & Hout & Hget); [lia | lia |].
  assert (E : 120 * h / 120 = h) by (rewrite Z.mul_comm; apply Z.div_mul; lia).
  rewrite E in *.
  destruct imageData as [w' h' pixels]. cbn [width height data] in *. subst w' h'.
  do 2 f_equal. apply list_eq. intros k.
  destruct (decide (k < length pixels)%nat) as [Hk | Hk].
  - destruct (position_pixel (Z.of_nat k) h) as (i & j & c & Hi & Hj & Hc & Hp); [lia |].
    replace k with (Z.to_nat ((j * 120 + i) * 4 + c)) by lia.
    rewrite Hget by lia.
    assert (Ei : i * 120 / 120 = i) by (apply Z.div_mul; lia).
    assert (Ej : j * 120 / 120 = j) by (apply Z.div_mul; lia).
    rewrite Ei, Ej.
    destruct (lookup_lt_is_Some_2 pixels (Z.to_nat ((j * 120 + i) * 4 + c)))
      as [b Hb]; [lia |].
    now rewrite Hb.
  - rewrite (proj2 (lookup_ge_None pixels k)) by lia.
    apply lookup_ge_None. lia.
Qed.

Lemma scaleImageToThumbnail_again imageData thumbnail :
  scaleImageToThumbnail imageData = Returned thumbnail ->
  scaleImageToThumbnail thumbnail = Returned thumbnail.
Proof.
  intros Hrun.
  destruct (scaleImageToThumbnail_Returned imageData thumbnail Hrun)
    as (Hwidth & [[Hnan Hdata] | (H & HH & Hheight & Hlen)]).
  - destruct thumbnail as [w h pixels]. cbn [width height data] in *. subst.
    reflexivity.
  - now apply (scaleImageToThumbnail_identity thumbnail H).
Qed.

End ScalerIdentity.

(** X1. Whenever [scaleImageToThumbnail] returns, on any input, the raster
    it returns is 120 wide and its byte array has four bytes per pixel: its
    height is a non-negative integer [H] and it holds [120 * H * 4] bytes,
    or its height is [NaN] and it holds none. *)
Theorem scaler_returns_raster imageData thumbnail :
  scaleImageToThumbnail imageData = Returned thumbnail ->
  width thumbnail = of_Z 120
  /\ ((height thumbnail = NaN /\ data thumbnail = [])
      \/ exists outputHeight,
           0 <= outputHeight
           /\ height thumbnail = of_Z outputHeight
           /\ Z.of_nat (length (data thumbnail)) = 120 * outputHeight * 4).
Proof. apply scaleImageToThumbnail_Returned. Qed.

Lemma scaler_returns_raster_witness :
  exists thumbnail,
    scaleImageToThumbnail (Samples.raster240x2 Byte.x07) = Returned thumbnail
    /\ width thumbnail = of_Z 120 /\ height thumbnail = of_Z 1
    /\ length (data thumbnail) = 480%nat.
Proof.
  assert (E : scaleImageToThumbnail (Samples.raster240x2 Byte.x07)
              = Returned {| width := of_Z 120; height := of_Z 1;
                            data := replicate 480 Byte.x07 |})
    by (vm_compute; reflexivity).
  destruct (scaler_returns_raster _ _ E) as (Hw & _).
  eexists. split; [exact E |]. split; [exact Hw |]. split; reflexivity.
Defined.



(** X3. A raster that is already 120 pixels wide (of integer height, with
    its [120 * h * 4] bytes) is returned unchanged. *)
Theorem scaler_identity_at_thumbnail_width imageData h :
  width imageData = of_Z 120 -> height imageData = of_Z h -> 0 <= h ->
  Z.of_nat (length (data imageData)) = 120 * h * 4 ->
  scaleImageToThumbnail imageData = Returned imageData.
Proof. apply scaleImageToThumbnail_identity. Qed.

Lemma scaler_identity_at_thumbnail_width_witness :
  scaleImageToThumbnail MoreSamples.raster120x1 = Returned MoreSamples.raster120x1.
Proof.
  apply (scaler_identity_at_thumbnail_width MoreSamples.raster120x1 1);
    [reflexivity | reflexivity | lia | vm_compute; reflexivity].
Defined.

(** X4. Scaling is idempotent: whatever the scaler returns, scaling that
    again returns the same raster. *)
Theorem scaler_idempotent imageData thumbnail :
  scaleImageToThumbnail imageData = Returned thumbnail ->
  scaleImageToThumbnail thumbnail = Returned thumbnail.
Proof. apply scaleImageToThumbnail_again. Qed.

Lemma scaler_idempotent_witness :
  exists thumbnail,
    scaleImageToThumbnail (Samples.raster240x2 Byte.x07) = Returned thumbnail
    /\ scaleImageToThumbnail thumbnail = Returned thumbnail.
Proof.
  assert (E : scaleImageToThumbnail (Samples.raster240x2 Byte.x07)
              = Returned {| width := of_Z 120; height := of_Z 1;
                            data := replicate 480 Byte.x07 |})
    by (vm_compute; reflexivity).
  eexists. split; [exact E |]. exact (scaler_idempotent _ _ E).
Defined.

Section ScalerEdges.

Lemma Qcompare_inject_Z z : (inject_Z z ?= 0)%Q = (z ?= 0).
Proof. unfold Qcompare. simpl. now rewrite Z.mul_1_r. Qed.

(** Dividing by the scale factor of a raster without columns. *)
Lemma height_over_zero_width h :
  floor (div (of_Z h) (div (of_Z 0) (of_Z THUMBNAIL_WIDTH))) = signed_inf (h ?= 0).
Proof.
  change (div (of_Z 0) (of_Z THUMBNAIL_WIDTH)) with (Fin (0 / inject_Z 120)).
  unfold div, of_Z.
  change (is_zero (0 / inject_Z 120)) with true. cbn match.
  rewrite Qcompare_inject_Z. now destruct (h ?= 0).
Qed.

End ScalerEdges.

(** X5. A raster without columns (width 0): the scale factor is zero, and
    the scaler throws a [RangeError] when the height is not zero (the output
    height is infinite) and returns an empty raster of height [NaN] when the
    height is zero. *)
Theorem scaler_zero_width imageData h :
  width imageData = of_Z 0 -> height imageData = of_Z h ->
  (h <> 0 ->
   scaleImageToThumbnail imageData
   = Thrown (RangeError "Invalid typed array length"))
  /\ (h = 0 ->
      scaleImageToThumbnail imageData
      = Returned {| width := of_Z 120; height := NaN; data := [] |}).
Proof.
  intros Hwidth Hheight.
  destruct (scaleImageToThumbnail_shape imageData) as (fill & Hfill & ->).
  cbn zeta. rewrite Hwidth, Hheight, height_over_zero_width. split.
  - intros Hh. destruct (Z.compare_spec h 0) as [E | E | E]; [lia | |]; reflexivity.
  - intros ->. cbn. do 2 f_equal. apply length_zero_iff_nil. now rewrite Hfill.
Qed.

Lemma scaler_zero_width_witness :
  scaleImageToThumbnail (MoreSamples.no_columns 3)
  = Thrown (RangeError "Invalid typed array length")
  /\ scaleImageToThumbnail (MoreSamples.no_columns 0)
     = Returned {| width := of_Z 120; height := NaN; data := [] |}.
Proof.
  split.
  - apply (scaler_zero_width (MoreSamples.no_columns 3) 3);
      [reflexivity | reflexivity | lia].
  - apply (scaler_zero_width (MoreSamples.no_columns 0) 0); reflexivity.
Defined.



(** ** The sampler along the buckets *)

Section SamplerOrder.

Lemma targetTimestamp_Fin speedline context i b t :
  beginning speedline = Fin b -> timelineEnd speedline context = Fin t ->
  targetTimestamp speedline context i = Fin (b + t * inject_Z i / inject_Z 10).
Proof. intros Hb Ht. unfold targetTimestamp. rewrite Hb, Ht. reflexivity. Qed.

(** Over a timeline that does not end before it begins, the targets of the
    buckets do not decrease. *)
Lemma targetTimestamp_mono speedline context i j :
  isFinite (beginning speedline) = true ->
  isFinite (timelineEnd speedline context) = true ->
  le (of_Z 0) (timelineEnd speedline context) = true ->
  i <= j ->
  le (targetTimestamp speedline context i) (targetTimestamp speedline context j) = true.
Proof.
  intros Hb Ht Hpos Hij.
  apply isFinite_Fin in Hb as [b Hb]. apply isFinite_Fin in Ht as [t Ht].
  rewrite Ht in Hpos. apply le_Fin in Hpos.
  rewrite (targetTimestamp_Fin _ _ i b t), (targetTimestamp_Fin _ _ j b t) by done.
  apply le_Fin.
  assert (Hz : (inject_Z i <= inject_Z j)%Q) by now rewrite <- Zle_Qle.
  assert (Hm : (t * inject_Z i <= t * inject_Z j)%Q).
  { rewrite !(Qmult_comm t). apply Qmult_le_compat_r; assumption. }
  assert (Hd : (t * inject_Z i / inject_Z 10 <= t * inject_Z j / inject_Z 10)%Q).
  { unfold Qdiv. apply Qmult_le_compat_r; [exact Hm | discriminate]. }
  lra.
Qed.

Lemma last_filter_mono {A} (P Q : A -> bool) (l : list A) f :
  (forall a, P a = true -> Q a = true) ->
  last (List.filter P l) = Some f ->
  exists g earlier later,
    last (List.filter Q l) = Some g
    /\ l = earlier ++ g :: later
    /\ (f = g \/ f ∈ earlier).
Proof.
  intros HPQ Hf.
  assert (Hin : f ∈ List.filter Q l).
  { apply last_Some_elem_of, elem_of_filter in Hf as [Hl HP].
    apply elem_of_filter. auto. }
  destruct (last (List.filter Q l)) as [g |] eqn:Hg.
  2:{ apply last_None in Hg. rewrite Hg in Hin. now apply elem_of_nil in Hin. }
  destruct (last_filter_split Q l g Hg) as (Qg & earlier & later & -> & Hlater).
  exists g, earlier, later. split; [reflexivity |]. split; [reflexivity |].
  apply elem_of_filter in Hin as [Hin Qf].
  apply elem_of_app in Hin as [Hin | Hin]; [now right |].
  apply elem_of_cons in Hin as [-> | Hin]; [now left |].
  rewrite Forall_forall in Hlater. apply Hlater in Hin. congruence.
Qed.

(** Once a bucket has a frame, a later bucket has one, at the same place of
    the timeline or after it. *)
Lemma frameForTimestamp_mono speedline context i j f :
  isFinite (beginning speedline) = true ->
  isFinite (timelineEnd speedline context) = true ->
  le (of_Z 0) (timelineEnd speedline context) = true ->
  1 <= i -> i < j -> j <= 10 ->
  frameForTimestamp speedline context i = Some f ->
  le (getTimeStamp f) (targetTimestamp speedline context i) = true
  /\ exists g earlier later,
       frameForTimestamp speedline context j = Some g
       /\ analyzedFrames speedline = earlier ++ g :: later
       /\ (f = g \/ f ∈ earlier).
Proof.
  intros Hb Ht Hpos Hi Hij Hj Hf.
  rewrite frameForTimestamp_scan in Hf by (unfold NUMBER_OF_THUMBNAILS; lia).
  assert (Pf : le (getTimeStamp f) (targetTimestamp speedline context i) = true).
  { now apply last_filter_split in Hf as [Pf _]. }
  split; [exact Pf |].
  destruct (Z.eq_dec j NUMBER_OF_THUMBNAILS) as [-> | Hj10].
  - rewrite frameForTimestamp_last.
    apply last_Some_elem_of, elem_of_filter in Hf as [Hin _].
    destruct (last (analyzedFrames speedline)) as [g |] eqn:Hg.
    2:{ apply last_None in Hg. rewrite Hg in Hin. now apply elem_of_nil in Hin. }
    apply last_Some in Hg as [earlier Hsplit].
    exists g, earlier, []. split; [reflexivity |]. split; [exact Hsplit |].
    rewrite Hsplit in Hin. apply elem_of_app in Hin as [Hin | Hin]; [now right |].
    left. now apply list_elem_of_singleton in Hin.
  - rewrite frameForTimestamp_scan by done.
    apply (last_filter_mono
             (fun frame => le (getTimeStamp frame) (targetTimestamp speedline context i))
             (fun frame => le (getTimeStamp frame) (targetTimestamp speedline context j)));
      [| exact Hf].
    intros a Ha. eapply le_trans; [exact Ha |].
    apply targetTimestamp_mono; [done | done | done | lia].
Qed.

Lemma chronological_split earlier g later f :
  chronological (earlier ++ g :: later) -> f ∈ earlier ->
  le (getTimeStamp f) (getTimeStamp g) = true.
Proof.
  intros Hs Hf.
  apply (StronglySorted_app_1_elem_of _ earlier (g :: later) f g Hs Hf).
  apply list_elem_of_here.
Qed.

End SamplerOrder.

(** X7. The filmstrip never goes back in the timeline.  When the beginning
    and the end of the timeline are finite and the end is not negative, a
    bucket that has a frame is followed by buckets that have one too, and
    the frame of a later bucket stands at the same place among the analyzed
    frames or after it; in a chronological timeline its timestamp is not
    smaller. *)
Theorem selection_never_goes_back speedline context i j f :
  isFinite (beginning speedline) = true ->
  isFinite (timelineEnd speedline context) = true ->
  le (of_Z 0) (timelineEnd speedline context) = true ->
  1 <= i -> i < j -> j <= 10 ->
  frameForTimestamp speedline context i = Some f ->
  exists g earlier later,
    frameForTimestamp speedline context j = Some g
    /\ analyzedFrames speedline = earlier ++ g :: later
    /\ (f = g \/ f ∈ earlier)
    /\ (chronological (frames speedline) ->
        le (getTimeStamp f) (getTimeStamp g) = true).
Proof.
  intros Hb Ht Hpos Hi Hij Hj Hf.
  destruct (frameForTimestamp_mono speedline context i j f Hb Ht Hpos Hi Hij Hj Hf)
    as (Pf & g & earlier & later & Hg & Hsplit & Hplace).
  exists g, earlier, later. repeat split; try done.
  intros Hchron. apply chronological_analyzed in Hchron. rewrite Hsplit in Hchron.
  destruct Hplace as [<- | Hin].
  - apply le_refl. now apply le_not_NaN_l in Pf.
  - now apply (chronological_split earlier g later).
Qed.

(** On the sample timeline: bucket 4 shows the frame at 1000, bucket 5 a
    frame that is not earlier. *)
Lemma selection_never_goes_back_witness :
  exists g,
    frameForTimestamp Samples.timeline Samples.default_context 5 = Some g
    /\ le (getTimeStamp Samples.frame1) (getTimeStamp g) = true.
Proof.
  destruct (selection_never_goes_back Samples.timeline Samples.default_context
              4 5 Samples.frame1)
    as (g & earlier & later & Hg & _ & _ & Hle);
    [reflexivity | reflexivity | reflexivity | lia | lia | lia
     | vm_compute; reflexivity |].
  exists g. split; [exact Hg |]. apply Hle.
  repeat constructor.
Defined.

(** ** Builds that succeed, and what a build may do *)

Section BuildRuns.
Context `{Jpeg}.



(** One iteration makes at most one scaler call and one encoder call, for
    an analyzed frame, and files at most one payload, under that frame. *)
Lemma bucket_work speedline context i st st' o :
  bucket speedline context i st = (st', o) ->
  (length (List.filter is_scaled (work st'))
   <= S (length (List.filter is_scaled (work st))))%nat
  /\ (length (List.filter is_encoded (work st'))
      <= S (length (List.filter is_encoded (work st))))%nat
  /\ (length (thumbnails st') <= S (length (thumbnails st)))%nat
  /\ (forall w, w ∈ work st' ->
        w ∈ work st
        \/ exists frame, frame ∈ analyzedFrames speedline /\ work_frame w = frame_id frame)
  /\ (forall id, is_Some (cachedThumbnails st' !! id) ->
        is_Some (cachedThumbnails st !! id)
        \/ exists frame, frame ∈ analyzedFrames speedline /\ id = frame_id frame).
Proof.
  rewrite bucket_unfold.
  destruct (frameForTimestamp speedline context i) as [frame |] eqn:Hsel.
  2:{ intros [= <- <-]. repeat split; auto with lia. }
  assert (Hin := frameForTimestamp_analyzed speedline context i frame Hsel).
  cbn zeta. destruct (truthy_string _).
  { intros [= <- <-]. cbn [work thumbnails cachedThumbnails].
    rewrite length_app. cbn [length]. repeat split; auto with lia. }
  destruct (scaleImageToThumbnail (getParsedImage frame)); intros [= <- <-];
    cbn [work thumbnails cachedThumbnails List.filter is_scaled is_encoded length];
    rewrite ?length_app; cbn [length].
  - repeat split; [lia | lia | lia | |].
    + intros w Hw. apply elem_of_cons in Hw as [-> | Hw]; [right; now exists frame |].
      apply elem_of_cons in Hw as [-> | Hw]; [right; now exists frame | now left].
    + intros id Hid. destruct (decide (frame_id frame = id)) as [<- | Hne].
      * right. now exists frame.
      * left. now rewrite lookup_insert_ne in Hid.
  - repeat split; [lia | lia | lia | | auto].
    intros w Hw. apply elem_of_cons in Hw as [-> | Hw]; [right; now exists frame |].
    now left.
Qed.

Lemma for_each_work speedline context l :
  forall st st' o,
    for_each (bucket speedline context) l st = (st', o) ->
    (length (List.filter is_scaled (work st'))
     <= length (List.filter is_scaled (work st)) + length l)%nat
    /\ (length (List.filter is_encoded (work st'))
        <= length (List.filter is_encoded (work st)) + length l)%nat
    /\ (length (thumbnails st') <= length (thumbnails st) + length l)%nat
    /\ (forall w, w ∈ work st' ->
          w ∈ work st
          \/ exists frame,
               frame ∈ analyzedFrames speedline /\ work_frame w = frame_id frame)
    /\ (forall id, is_Some (cachedThumbnails st' !! id) ->
          is_Some (cachedThumbnails st !! id)
          \/ exists frame, frame ∈ analyzedFrames speedline /\ id = frame_id frame).
Proof.
  induction l as [| i l IH]; intros st st' o.
  - intros [= <- <-]. repeat split; auto with lia.
  - rewrite for_each_cons.
    destruct (bucket speedline context i st) as [st1 o1] eqn:E.
    destruct (bucket_work speedline context i st st1 o1 E)
      as (Hs & He & Ht & Hw & Hc).
    destruct o1 as [[] | err].
    + intros Hrest. destruct (IH st1 st' o Hrest) as (Hs' & He' & Ht' & Hw' & Hc').
      cbn [length]. repeat split; [lia | lia | lia | |].
      * intros w Hin. destruct (Hw' w Hin) as [Hin1 | Hf]; [auto | now right].
      * intros id Hid. destruct (Hc' id Hid) as [Hid1 | Hf]; [auto | now right].
    + intros [= <- <-]. cbn [length]. repeat split; [lia | lia | lia | done | done].
Qed.

End BuildRuns.



(** X9. Whatever the timeline and the outcome, a build makes at most ten
    scaler calls and ten encoder calls and pushes at most ten thumbnails;
    every call, and every entry of the cache, is for a frame of the timeline
    that is not interpolated. *)
Theorem build_work_is_bounded `{Jpeg} artifacts context :
  let st := (_audit artifacts context).1 in
  (length (List.filter is_scaled (work st)) <= 10)%nat
  /\ (length (List.filter is_encoded (work st)) <= 10)%nat
  /\ (length (thumbnails st) <= 10)%nat
  /\ (forall w, w ∈ work st ->
        exists speedline frame,
          traces artifacts = Returned speedline
          /\ frame ∈ frames speedline
          /\ isProgressInterpolated frame = false
          /\ work_frame w = frame_id frame)
  /\ (forall id, is_Some (cachedThumbnails st !! id) ->
        exists speedline frame,
          traces artifacts = Returned speedline
          /\ frame ∈ frames speedline
          /\ isProgressInterpolated frame = false
          /\ id = frame_id frame).
Proof.
  intros st. subst st. destruct artifacts as [[speedline | err] mode].
  2:{ rewrite _audit_rejected with (err := err) by reflexivity. cbn.
      repeat split; try lia.
      - intros w Hw. now apply elem_of_nil in Hw.
      - intros id [s Hs]. now rewrite lookup_empty in Hs. }
  destruct (guard_cases speedline context) as [Hguard | [Hne Hfin]].
  { rewrite _audit_guard by done. cbn.
    repeat split; try lia.
    - intros w Hw. now apply elem_of_nil in Hw.
    - intros id [s Hs]. now rewrite lookup_empty in Hs. }
  rewrite guard_passes by done. unfold bind.
  destruct (for_each (bucket speedline context) buckets initial) as [st o] eqn:E.
  destruct (for_each_work speedline context buckets initial st o E)
    as (Hs & He & Ht & Hw & Hc).
  assert (Hst : (let (st', o') := (st, o) in
                 match o' with
                 | Returned _ => filmstrip speedline context st'
                 | Thrown err => (st', Thrown err)
                 end).1 = st) by now destruct o.
  cbn in Hst. rewrite Hst.
  change (length buckets) with 10%nat in Hs, He, Ht.
  cbn [initial work thumbnails List.filter length] in Hs, He, Ht.
  assert (Hanalyzed : forall frame,
            frame ∈ analyzedFrames speedline ->
            frame ∈ frames speedline /\ isProgressInterpolated frame = false).
  { intros frame Hin. apply elem_of_filter in Hin as [Hin Hflag].
    split; [exact Hin |]. now apply negb_true_iff in Hflag. }
  repeat split; [lia | lia | lia | |].
  - intros w Hin. destruct (Hw w Hin) as [Hnil | (frame & Hf & Hid)].
    + now apply elem_of_nil in Hnil.
    + exists speedline, frame. destruct (Hanalyzed frame Hf). done.
  - intros id Hid. destruct (Hc id Hid) as [[s Hs'] | (frame & Hf & Hid')].
    + cbn [initial cachedThumbnails] in Hs'. now rewrite lookup_empty in Hs'.
    + exists speedline, frame. destruct (Hanalyzed frame Hf). done.
Qed.

(** ** The outcome of the audit *)

Section Outcome.
Context `{Jpeg}.

(** How [_audit] ends once the guard has passed. *)
Lemma _audit_after_guard speedline context mode :
  analyzedFrames speedline <> [] ->
  isFinite (timelineEnd speedline context) = true ->
  exists st,
    (_audit {| traces := Returned speedline; gatherMode := mode |} context
     = (st, Returned {| Product.score := of_Z 1;
                        Product.notApplicable := None;
                        Product.details :=
                          Some {| Details.type := "filmstrip";
                                  Details.scale := timelineEnd speedline context;
                                  Details.items := thumbnails st |} |}))
    \/ exists err,
         _audit {| traces := Returned speedline; gatherMode := mode |} context
         = (st, Thrown err)
         /\ err_code err = None.
Proof.
  intros Hne Hfin. rewrite guard_passes by done. unfold bind.
  destruct (for_each (bucket speedline context) buckets initial)
    as [st [[] | err]] eqn:E; exists st.
  - now left.
  - right. exists err. split; [reflexivity |]. now apply for_each_Thrown_code in E.
Qed.

Lemma or_else_not_NaN a b : b <> NaN -> or_else a b <> NaN.
Proof.
  intros Hb. unfold or_else. destruct a as [x |]; [| exact Hb].
  destruct (truthy x) eqn:E; [| exact Hb]. intros ->. discriminate.
Qed.

Lemma max2_finite a b :
  isFinite (max2 a b) = true ->
  b <> NaN -> le a (max2 a b) = true /\ le b (max2 a b) = true.
Proof.
  intros Hfin Hb.
  assert (Ha : a <> NaN) by (intros ->; discriminate).
  destruct (max2_spec a b Ha Hb) as (_ & Hla & Hlb & _). now split.
Qed.

Lemma filter_idempotent {A} (P : A -> bool) (l : list A) :
  List.filter P (List.filter P l) = List.filter P l.
Proof.
  induction l as [| a l IH]; [reflexivity |].
  cbn [List.filter]. destruct (P a) eqn:Pa; [| exact IH].
  cbn [List.filter]. now rewrite Pa, IH.
Qed.

Lemma for_each_ext {A} (body body' : A -> Build unit) l st :
  (forall a st, body a st = body' a st) ->
  for_each body l st = for_each body' l st.
Proof.
  intros Hbody. revert st. induction l as [| a l IH]; intros st; [reflexivity |].
  rewrite !for_each_cons, Hbody. destruct (body' a st) as [st1 [[] | err]]; auto.
Qed.

(** With a truthy completion time the build reads the frames through
    [analyzedFrames] only. *)
Lemma _audit_without_interpolated speedline context mode completion :
  complete speedline = Some completion -> truthy completion = true ->
  _audit {| traces := Returned speedline; gatherMode := mode |} context
  = _audit {| traces := Returned (without_interpolated speedline);
              gatherMode := mode |} context.
Proof.
  intros Hc Ht.
  assert (Ha : analyzedFrames (without_interpolated speedline)
               = analyzedFrames speedline) by apply filter_idempotent.
  assert (Hm : maxFrameTime (without_interpolated speedline) = maxFrameTime speedline).
  { unfold maxFrameTime, or_else. cbn [complete without_interpolated].
    now rewrite Hc, Ht. }
  assert (He : timelineEnd (without_interpolated speedline) context
               = timelineEnd speedline context)
    by (unfold timelineEnd; now rewrite Hm).
  assert (Htarget : forall i, targetTimestamp (without_interpolated speedline) context i
                              = targetTimestamp speedline context i)
    by (intros i; unfold targetTimestamp; now rewrite He).
  assert (Hsel : forall i, frameForTimestamp (without_interpolated speedline) context i
                           = frameForTimestamp speedline context i)
    by (intros i; unfold frameForTimestamp; now rewrite Ha, Htarget).
  assert (Hthumb : forall i p, thumbnail (without_interpolated speedline) context i p
                               = thumbnail speedline context i p)
    by (intros i p; unfold thumbnail; now rewrite Htarget).
  assert (Hbucket : forall i st, bucket (without_interpolated speedline) context i st
                                 = bucket speedline context i st).
  { intros i st. unfold bucket, bind. rewrite Hsel.
    destruct (base64Data _ st) as [st1 [p | err]]; [| reflexivity].
    now rewrite Hthumb. }
  unfold _audit, _audit_body, bind, call. cbn [traces].
  rewrite Ha, He.
  destruct (_ || _); [reflexivity |].
  rewrite (for_each_ext _ _ _ _ Hbucket).
  destruct (for_each _ _ _) as [st [[] | err]]; [| reflexivity].
  unfold filmstrip. now rewrite He.
Qed.

End Outcome.

(** X10. In 'timespan' mode, with a timeline at hand, the audit returns
    [{notApplicable: true, score: 1}] if and only if the timeline has no
    analyzed frame or its end is not finite, and then nothing has been
    scaled or encoded; in any other gather mode it never returns that
    result. *)
Theorem timespan_not_applicable_iff `{Jpeg} speedline context :
  let result :=
    audit {| traces := Returned speedline; gatherMode := "timespan" |} context in
  (result.2 = Returned not_applicable
   <-> (analyzedFrames speedline = []
        \/ isFinite (timelineEnd speedline context) = false))
  /\ (result.2 = Returned not_applicable -> result.1 = initial)
  /\ forall mode,
       mode <> "timespan" ->
       (audit {| traces := Returned speedline; gatherMode := mode |} context).2
       <> Returned not_applicable.
Proof.
  intros result.
  assert (Hother : forall mode,
            analyzedFrames speedline <> [] ->
            isFinite (timelineEnd speedline context) = true ->
            (audit {| traces := Returned speedline; gatherMode := mode |} context).2
            <> Returned not_applicable).
  { intros mode Hne Hfin. unfold audit.
    destruct (_audit_after_guard speedline context mode Hne Hfin)
      as (st & [-> | (err & -> & Hcode)]).
    - cbn. discriminate.
    - rewrite Hcode. cbn. discriminate. }
  destruct (guard_cases speedline context) as [Hguard | [Hne Hfin]].
  - assert (E : result = (initial, Returned not_applicable)).
    { unfold result, audit. rewrite _audit_guard by done. reflexivity. }
    rewrite E. cbn [fst snd]. split; [tauto |]. split; [done |].
    intros mode Hmode. unfold audit. rewrite _audit_guard by done.
    cbn [gatherMode]. apply String.eqb_neq in Hmode. rewrite Hmode, andb_false_r.
    cbn. discriminate.
  - split; [| split].
    + split; [| intros [? | ?]; congruence].
      intros Hres. now apply Hother in Hres.
    + intros Hres. now apply Hother in Hres.
    + intros mode _. now apply Hother.
Qed.

(** X11. The scale of a filmstrip is finite and is neither below the
    minimum duration in force (the configured one, 3000 when none is
    configured or the configured one is falsy) nor below the completion time
    or last frame time it is computed from. *)
Theorem scale_at_least_minimum `{Jpeg} speedline context mode st product :
  _audit {| traces := Returned speedline; gatherMode := mode |} context
  = (st, Returned product) ->
  exists details,
    Product.details product = Some details
    /\ isFinite (Details.scale details) = true
    /\ le (or_else (minimumTimelineDuration context) (of_Z 3000))
          (Details.scale details) = true
    /\ le (maxFrameTime speedline) (Details.scale details) = true
    /\ (minimumTimelineDuration context = None ->
        le (of_Z 3000) (Details.scale details) = true).
Proof.
  intros Hrun.
  destruct (guard_cases speedline context) as [Hguard | [Hne Hfin]].
  { rewrite _audit_guard in Hrun by done. discriminate. }
  destruct (_audit_after_guard speedline context mode Hne Hfin)
    as (st' & [E | (err & E & _)]); rewrite E in Hrun; [| discriminate].
  injection Hrun as _ <-. eexists. split; [reflexivity |]. cbn [Details.scale].
  split; [exact Hfin |].
  destruct (max2_finite (maxFrameTime speedline)
              (or_else (minimumTimelineDuration context) (of_Z 3000)) Hfin)
    as [Hmax Hmin]; [apply or_else_not_NaN; discriminate |].
  fold (timelineEnd speedline context) in Hmax, Hmin.
  split; [exact Hmin |]. split; [exact Hmax |].
  intros Hnone. now rewrite Hnone in Hmin.
Qed.

Lemma scale_at_least_minimum_witness :
  exists details,
    Product.details Samples.filmstrip_of_timeline = Some details
    /\ le (of_Z 3000) (Details.scale details) = true.
Proof.
  assert (E : @_audit Samples.jpeg (Samples.navigation (Returned Samples.timeline))
                Samples.default_context
              = ((@_audit Samples.jpeg (Samples.navigation (Returned Samples.timeline))
                    Samples.default_context).1,
                 Returned Samples.filmstrip_of_timeline))
    by (vm_compute; reflexivity).
  destruct (@scale_at_least_minimum Samples.jpeg _ _ _ _ _ E)
    as (details & Hd & _ & _ & _ & Hmin).
  exists details. split; [exact Hd |]. now apply Hmin.
Defined.

(** X12. When the completion time of the timeline is truthy, interpolated
    frames have no influence: leaving them out of the timeline changes
    neither what [_audit] returns or throws, nor the calls it makes, nor
    what [audit] makes of it. *)
Theorem interpolated_frames_do_not_matter `{Jpeg} speedline context mode completion :
  complete speedline = Some completion -> truthy completion = true ->
  _audit {| traces := Returned speedline; gatherMode := mode |} context
  = _audit {| traces := Returned (without_interpolated speedline);
              gatherMode := mode |} context
  /\ audit {| traces := Returned speedline; gatherMode := mode |} context
     = audit {| traces := Returned (without_interpolated speedline);
                gatherMode := mode |} context.
Proof.
  intros Hc Ht.
  assert (E := _audit_without_interpolated speedline context mode completion Hc Ht).
  split; [exact E |]. unfold audit. now rewrite E.
Qed.

Lemma interpolated_frames_do_not_matter_witness :
  @_audit Samples.jpeg (Samples.navigation (Returned MoreSamples.completed_timeline))
    Samples.default_context
  = @_audit Samples.jpeg
      (Samples.navigation
         (Returned {| frames := [Samples.frame1; Samples.frame3; Samples.frame4];
                      beginning := of_Z 1000;
                      complete := Some (of_Z 2900) |}))
      Samples.default_context.
Proof.
  destruct (@interpolated_frames_do_not_matter Samples.jpeg
              MoreSamples.completed_timeline Samples.default_context "navigation"
              (of_Z 2900)) as [E _]; [reflexivity | reflexivity |].
  unfold Samples.navigation. rewrite E. vm_compute. reflexivity.
Defined.

(** ** The manual audit *)

Section ManualAudit.
Import UseLandmarks.



End ManualAudit.



(** ** What the scaler reads *)

Section ScalerReads.


End ScalerReads.



(** ** A page that does not change *)

Section StillPage.
Context `{Jpeg}.

Lemma filter_all {A} (P : A -> bool) (l : list A) :
  Forall (fun a => P a = true) l -> List.filter P l = l.
Proof.
  induction 1 as [| a l Ha Hl IH]; [reflexivity |].
  cbn [List.filter]. now rewrite Ha, IH.
Qed.

(** Buckets whose frame is in the cache, with a payload that is not empty,
    push their thumbnails and do nothing else. *)
Lemma for_each_cached speedline context frame payload l :
  payload <> EmptyString ->
  (forall i, i ∈ l -> frameForTimestamp speedline context i = Some frame) ->
  forall st,
    cachedThumbnails st !! frame_id frame = Some payload ->
    for_each (bucket speedline context) l st
    = ({| cachedThumbnails := cachedThumbnails st;
          thumbnails :=
            thumbnails st ++ ((fun i => thumbnail speedline context i payload) <$> l);
          work := work st |}, Returned tt).
Proof.
  intros Hpayload. induction l as [| i l IH]; intros Hsel st Hcache.
  - cbn. rewrite app_nil_r. now destruct st.
  - rewrite for_each_cons, bucket_unfold, (Hsel i) by apply list_elem_of_here.
    cbn zeta. rewrite Hcache.
    rewrite (proj2 (truthy_string_Some payload) Hpayload).
    rewrite IH; [| intros k Hk; apply Hsel; now apply list_elem_of_further | exact Hcache].
    cbn [cachedThumbnails thumbnails work default fmap list_fmap].
    now rewrite <- app_assoc.
Qed.

Lemma still_page_selection speedline context frame i :
  isFinite (beginning speedline) = true ->
  isFinite (timelineEnd speedline context) = true ->
  le (of_Z 0) (timelineEnd speedline context) = true ->
  last (analyzedFrames speedline) = Some frame ->
  Forall (fun f => le (getTimeStamp f) (targetTimestamp speedline context 1) = true)
         (analyzedFrames speedline) ->
  1 <= i <= 10 ->
  frameForTimestamp speedline context i = Some frame.
Proof.
  intros Hb Ht Hpos Hlast Hall Hi.
  destruct (Z.eq_dec i NUMBER_OF_THUMBNAILS) as [-> | Hi10].
  - now rewrite frameForTimestamp_last.
  - rewrite frameForTimestamp_scan by done. rewrite filter_all; [exact Hlast |].
    eapply Forall_impl; [exact Hall |]. intros f Hf. cbn beta in *.
    eapply le_trans; [exact Hf |].
    apply targetTimestamp_mono; [done | done | done | lia].
Qed.

End StillPage.

(** X15. A page that does not change is encoded once.  When the beginning
    and the end of the timeline are finite, the end is not negative and every
    analyzed frame has a timestamp [<=] the target of the first bucket, all
    ten buckets show the last analyzed frame: if its image scales and its
    payload is not empty, the build makes one scaler call and one encoder
    call, for that frame, and returns ten thumbnails that carry that
    payload. *)
Theorem still_page_encoded_once `{Jpeg} speedline context mode frame thumbnailImageData :
  isFinite (beginning speedline) = true ->
  isFinite (timelineEnd speedline context) = true ->
  le (of_Z 0) (timelineEnd speedline context) = true ->
  last (analyzedFrames speedline) = Some frame ->
  Forall (fun f =>
            le (getTimeStamp f)
               (add (beginning speedline)
                    (div (mul (timelineEnd speedline context) (of_Z 1)) (of_Z 10)))
            = true)
         (analyzedFrames speedline) ->
  scaleImageToThumbnail (getParsedImage frame) = Returned thumbnailImageData ->
  encode_base64 thumbnailImageData (of_Z 90) <> EmptyString ->
  let base64Data := encode_base64 thumbnailImageData (of_Z 90) in
  let items :=
    (fun i => thumbnail speedline context i base64Data)
      <$> [1; 2; 3; 4; 5; 6; 7; 8; 9; 10] in
  _audit {| traces := Returned speedline; gatherMode := mode |} context
  = ({| cachedThumbnails := {[ frame_id frame := base64Data ]};
        thumbnails := items;
        work := [Encoded (frame_id frame); Scaled (frame_id frame)] |},
     Returned {| Product.score := of_Z 1;
                 Product.notApplicable := None;
                 Product.details :=
                   Some {| Details.type := "filmstrip";
                           Details.scale := timelineEnd speedline context;
                           Details.items := items |} |}).
Proof.
  intros Hb Ht Hpos Hlast Hall Hscale Hpayload base64Data items.
  assert (Hsel : forall i, 1 <= i <= 10 ->
                           frameForTimestamp speedline context i = Some frame)
    by (intros i Hi; now apply still_page_selection).
  assert (Hne : analyzedFrames speedline <> []).
  { intros E. rewrite E in Hlast. discriminate. }
  rewrite guard_passes by done. unfold bind.
  rewrite buckets_eq, for_each_cons, bucket_unfold, (Hsel 1) by lia.
  cbn zeta. cbn [initial cachedThumbnails]. rewrite lookup_empty.
  cbn [truthy_string]. rewrite Hscale.
  rewrite (for_each_cached speedline context frame base64Data);
    [| exact Hpayload
     | intros i Hi; apply Hsel;
       repeat (apply elem_of_cons in Hi as [-> | Hi]; [lia |]);
       now apply elem_of_nil in Hi
     | apply lookup_insert_eq].
  unfold filmstrip. cbn [cachedThumbnails thumbnails work app].
  now rewrite insert_empty.
Qed.

(** On the timeline of one frame taken at the beginning. *)
Lemma still_page_encoded_once_witness :
  let result :=
    @_audit Samples.jpeg (Samples.navigation (Returned MoreSamples.still_timeline))
      Samples.default_context in
  work result.1 = [Encoded 1; Scaled 1]%positive
  /\ length (thumbnails result.1) = 10%nat.
Proof.
  intros result. subst result. unfold Samples.navigation.
  rewrite (@still_page_encoded_once Samples.jpeg MoreSamples.still_timeline
             Samples.default_context "navigation" Samples.frame1
             {| width := of_Z 120; height := of_Z 1;
                data := replicate 480 Byte.x00 |});
    [split; reflexivity | reflexivity | reflexivity | reflexivity | reflexivity
     | repeat constructor | vm_compute; reflexivity | discriminate].
Defined.

(** ** Where the build can meet a missing frame *)

Section NullFrame.
Context `{Jpeg}.

Lemma scaleImageToThumbnail_RangeError imageData err :
  scaleImageToThumbnail imageData = Thrown err ->
  err = RangeError "Invalid typed array length".
Proof.
  destruct (scaleImageToThumbnail_shape imageData) as (fill & _ & ->). cbn zeta.
  destruct (new_Uint8Array _) as [outPixels | e] eqn:E; [discriminate |].
  intros [= <-]. unfold new_Uint8Array in E.
  repeat case_match; try discriminate; now injection E as <-.
Qed.

Lemma bucket_null_frame speedline context i st st' :
  bucket speedline context i st = (st', Thrown null_frame) ->
  frameForTimestamp speedline context i = None.
Proof.
  rewrite bucket_unfold.
  destruct (frameForTimestamp speedline context i) as [frame |]; [| reflexivity].
  cbn zeta. destruct (truthy_string _); [discriminate |].
  destruct (scaleImageToThumbnail (getParsedImage frame)) as [t | e] eqn:E;
    [discriminate |].
  apply scaleImageToThumbnail_RangeError in E. subst e. discriminate.
Qed.

End NullFrame.

(** X16. The call on a missing frame can only happen at the first bucket.
    When the beginning and the end of the timeline are finite and the end is
    not negative, a build that throws the [TypeError] of [getParsedImage] on
    [null] found no frame for bucket 1 and threw before any scaling or
    encoding and before any thumbnail was pushed. *)
Theorem null_frame_only_at_first_bucket `{Jpeg} speedline context mode st :
  isFinite (beginning speedline) = true ->
  le (of_Z 0) (timelineEnd speedline context) = true ->
  _audit {| traces := Returned speedline; gatherMode := mode |} context
  = (st, Thrown null_frame) ->
  frameForTimestamp speedline context 1 = None /\ st = initial.
Proof.
  intros Hb Hpos Hrun.
  destruct (guard_cases speedline context) as [Hguard | [Hne Hfin]].
  { rewrite _audit_guard in Hrun by done. discriminate. }
  assert (Hfirst : frameForTimestamp speedline context 1 = None).
  { rewrite guard_passes in Hrun by done. unfold bind in Hrun.
    destruct (for_each (bucket speedline context) buckets initial)
      as [st1 [[] | err]] eqn:E; [discriminate |].
    injection Hrun as -> ->.
    apply for_each_Thrown in E as (i & st0 & Hi & Hbody).
    apply bucket_null_frame in Hbody.
    apply elem_of_seqZ in Hi. unfold NUMBER_OF_THUMBNAILS in Hi.
    destruct (frameForTimestamp speedline context 1) as [f |] eqn:Hf; [| reflexivity].
    destruct (Z.eq_dec i 1) as [-> | Hi1]; [congruence |].
    destruct (frameForTimestamp_mono speedline context 1 i f)
      as (_ & g & _ & _ & Hg & _); [done | done | done | lia | lia | lia | done |].
    congruence. }
  split; [exact Hfirst |].
  rewrite guard_passes in Hrun by done. unfold bind in Hrun.
  rewrite buckets_eq, for_each_cons, bucket_unfold, Hfirst in Hrun.
  now injection Hrun as <-.
Qed.

Lemma null_frame_only_at_first_bucket_witness :
  frameForTimestamp Samples.late_timeline Samples.default_context 1 = None.
Proof.
  apply (@null_frame_only_at_first_bucket Samples.jpeg Samples.late_timeline
           Samples.default_context "navigation" initial);
    [reflexivity | reflexivity | reflexivity].
Defined.
